(** * RabbitAR: hand-pose estimation and stabilisation pipeline

    A shallow embedding of the detection loop of [src/App.tsx]
    ([predictWebcam]) and of the per-frame smoother of the AR canvas
    ([HandTrackerGroup], [useFrame] callback), together with the handful of
    three.js vector, matrix and quaternion methods these two call; then of
    the rest of the component: camera start-up and switching
    ([initMediapipe], [startCamera], [toggleCamera]), the custom model
    handlers ([handleFileChange], [handleClearModel]) and the idle
    animation of the built-in model.

    JavaScript numbers are kept abstract behind the interface [JsNumber]:
    the pipeline is written once against it and then read at two
    instances,
    - [R]: exact real arithmetic, the idealisation in which the algebraic
      properties are stated and proved;
    - [float]: IEEE 754 binary64, which is what the browser computes and
      on which the pipeline can be evaluated. *)

From Stdlib Require Import Reals Lra Psatz Floats ZArith QArith Qreals.
From Stdlib Require Import List String Bool.
Import ListNotations.

Set Implicit Arguments.
Set Warnings "-inexact-float".

(** ** Numbers *)

(** The operations on [number] the source uses.  [num q] is the decimal
    literal [q]; [falsy] is the test behind [a || b] (true on [0], [-0]
    and [NaN]). *)
Class JsNumber (T : Type) : Type := {
  num : Q -> T;
  add : T -> T -> T;
  sub : T -> T -> T;
  mul : T -> T -> T;
  div : T -> T -> T;
  neg : T -> T;
  lt : T -> T -> bool;
  falsy : T -> bool;
  Math_sqrt : T -> T;
  Math_tan : T -> T;
  Math_PI : T
}.

Arguments num {T _} q%_Q.

Declare Scope js_scope.
Delimit Scope js_scope with js.
Infix "+" := add : js_scope.
Infix "-" := sub : js_scope.
Infix "*" := mul : js_scope.
Infix "/" := div : js_scope.
Notation "- a" := (neg a) : js_scope.
Notation "a <? b" := (lt a b) : js_scope.
Notation "a >? b" := (lt b a) : js_scope.

(** [a || b] on numbers. *)
Definition or_else {T} `{JsNumber T} (a b : T) : T :=
  if falsy a then b else a.

(** Exact reals. *)
#[global] Instance R_number : JsNumber R := {|
  num := Q2R;
  add := Rplus;
  sub := Rminus;
  mul := Rmult;
  div := Rdiv;
  neg := Ropp;
  lt := fun a b => if Rlt_dec a b then true else false;
  falsy := fun a => if Req_dec_T a 0 then true else false;
  Math_sqrt := R_sqrt.sqrt;
  Math_tan := Rtrigo1.tan;
  Math_PI := Rtrigo1.PI
|}.

Definition Z2F (n : Z) : float :=
  match n with
  | Z0 => PrimFloat.of_uint63 (Uint63.of_Z 0)
  | Zpos _ => PrimFloat.of_uint63 (Uint63.of_Z n)
  | Zneg p => PrimFloat.opp (PrimFloat.of_uint63 (Uint63.of_Z (Zpos p)))
  end.

(** Binary64.  A decimal literal is the double nearest to it, which the
    correctly rounded quotient of its numerator and denominator is (both
    are small integers).  ECMAScript leaves [Math.tan] implementation
    approximated, so it stays a parameter of the instance. *)
Definition float_number (tanF : float -> float) : JsNumber float := {|
  num := fun q => PrimFloat.div (Z2F (Qnum q)) (Z2F (Zpos (Qden q)));
  add := PrimFloat.add;
  sub := PrimFloat.sub;
  mul := PrimFloat.mul;
  div := PrimFloat.div;
  neg := PrimFloat.opp;
  lt := PrimFloat.ltb;
  falsy := fun a => PrimFloat.eqb a 0%float || PrimFloat.is_nan a;
  Math_sqrt := PrimFloat.sqrt;
  Math_tan := tanF;
  Math_PI := 0x1.921fb54442d18p+1%float
|}.

(** ** three.js *)

Section Three.
Context {T : Type} `{JsNumber T}.
Local Open Scope js_scope.

Record Vector3 : Type := mkVector3 { x : T; y : T; z : T }.

Definition lengthSq (v : Vector3) : T :=
  x v * x v + y v * y v + z v * z v.

Definition length (v : Vector3) : T := Math_sqrt (lengthSq v).

Definition dot (a b : Vector3) : T :=
  x a * x b + y a * y b + z a * z b.

Definition multiplyScalar (v : Vector3) (s : T) : Vector3 :=
  mkVector3 (x v * s) (y v * s) (z v * s).

Definition divideScalar (v : Vector3) (s : T) : Vector3 :=
  multiplyScalar v (num 1 / s).

(** [normalize() { return this.divideScalar( this.length() || 1 ) }] *)
Definition normalize (v : Vector3) : Vector3 :=
  divideScalar v (or_else (length v) (num 1)).

Definition subVectors (a b : Vector3) : Vector3 :=
  mkVector3 (x a - x b) (y a - y b) (z a - z b).

Definition crossVectors (a b : Vector3) : Vector3 :=
  mkVector3 (y a * z b - z a * y b)
            (z a * x b - x a * z b)
            (x a * y b - y a * x b).

Definition negate (v : Vector3) : Vector3 :=
  mkVector3 (- x v) (- y v) (- z v).

(** [this.x += ( v.x - this.x ) * alpha] and likewise for y, z. *)
Definition lerp (this v : Vector3) (alpha : T) : Vector3 :=
  mkVector3 (x this + (x v - x this) * alpha)
            (y this + (y v - y this) * alpha)
            (z this + (z v - z this) * alpha).

Definition distanceToSquared (a b : Vector3) : T :=
  let dx := x a - x b in
  let dy := y a - y b in
  let dz := z a - z b in
  dx * dx + dy * dy + dz * dz.

Definition distanceTo (a b : Vector3) : T :=
  Math_sqrt (distanceToSquared a b).

(** Rows of a [Matrix4]: [nij] is row i, column j. *)
Record Matrix4 : Type := mkMatrix4 {
  n11 : T; n12 : T; n13 : T; n14 : T;
  n21 : T; n22 : T; n23 : T; n24 : T;
  n31 : T; n32 : T; n33 : T; n34 : T;
  n41 : T; n42 : T; n43 : T; n44 : T
}.

(** The three axes become the first three columns. *)
Definition makeBasis (xAxis yAxis zAxis : Vector3) : Matrix4 :=
  mkMatrix4 (x xAxis) (x yAxis) (x zAxis) (num 0)
            (y xAxis) (y yAxis) (y zAxis) (num 0)
            (z xAxis) (z yAxis) (z zAxis) (num 0)
            (num 0) (num 0) (num 0) (num 1).

Record Quaternion : Type := mkQuaternion { qx : T; qy : T; qz : T; qw : T }.

(** The upper 3x3 of [m] is read as a rotation; four branches on the
    trace and on the largest diagonal entry. *)
Definition setFromRotationMatrix (m : Matrix4) : Quaternion :=
  let trace := n11 m + n22 m + n33 m in
  if trace >? num 0 then
    let s := num 0.5 / Math_sqrt (trace + num 1.0) in
    mkQuaternion ((n32 m - n23 m) * s) ((n13 m - n31 m) * s)
                 ((n21 m - n12 m) * s) (num 0.25 / s)
  else if (n11 m >? n22 m) && (n11 m >? n33 m) then
    let s := num 2.0 * Math_sqrt (num 1.0 + n11 m - n22 m - n33 m) in
    mkQuaternion (num 0.25 * s) ((n12 m + n21 m) / s)
                 ((n13 m + n31 m) / s) ((n32 m - n23 m) / s)
  else if n22 m >? n33 m then
    let s := num 2.0 * Math_sqrt (num 1.0 + n22 m - n11 m - n33 m) in
    mkQuaternion ((n12 m + n21 m) / s) (num 0.25 * s)
                 ((n23 m + n32 m) / s) ((n13 m - n31 m) / s)
  else
    let s := num 2.0 * Math_sqrt (num 1.0 + n33 m - n11 m - n22 m) in
    mkQuaternion ((n13 m + n31 m) / s) ((n23 m + n32 m) / s)
                 (num 0.25 * s) ((n21 m - n12 m) / s).

End Three.

Arguments Vector3 T : clear implicits.
Arguments Matrix4 T : clear implicits.
Arguments Quaternion T : clear implicits.

(** ** src/types.ts *)

(** The fields [x], [y], [z] of a landmark are [px], [py], [pz] here,
    the shorter names being those of [Vector3]. *)
Record HandLandmark (T : Type) : Type :=
  mkLandmark { px : T; py : T; pz : T }.

Record DetectionResult (T : Type) : Type := mkDetectionResult {
  landmarks : list (list (HandLandmark T));
  worldLandmarks : list (list (HandLandmark T))
}.

(** ** src/App.tsx: the prediction loop *)

Inductive FacingMode : Type := user | environment.

(** What a call that may throw does. *)
Inductive Outcome (A : Type) : Type :=
| Returns (a : A)
| Throws.
Arguments Throws {A}.

(** How the [try] block of one cycle ended: at its last statement, or in
    the [catch] clause (which only logs). *)
Inductive Completion : Type := Normal | Caught.

Section App.
Context {T : Type} `{JsNumber T}.
Local Open Scope js_scope.

(** The mutable cells of the component that the loop reads and writes:
    the three target refs handed to the canvas, the React state
    [isHandDetected] (the canvas' [isVisible]) with its ref twin, the
    hysteresis timestamp and the debug line. *)
Record Refs : Type := mkRefs {
  handPositionRef : Vector3 T;
  handScaleRef : Vector3 T;
  handRotationRef : Quaternion T;
  isHandDetected : bool;
  isHandDetectedRef : bool;
  lastDetectionTimeRef : T;
  debugInfo : string
}.

(** Ambient values a cycle reads: the clock inside the [try] block, the
    camera mode and the window size. *)
Record Browser : Type := mkBrowser {
  performance_now : T;
  facingModeRef : FacingMode;
  innerWidth : T;
  innerHeight : T
}.

Record VideoElement : Type := mkVideo {
  videoWidth : N;
  videoHeight : N;
  currentTime : T
}.

(** *** Position *)

Definition xCoord3D (isMirrored : bool) (palmX : T) : T :=
  if isMirrored then (num 1 - palmX) * num 2 - num 1
  else (palmX * num 2) - num 1.

(** Visible world height at the camera distance. *)
Definition viewHeight : T :=
  let distance := num 5 in
  let fov := num 50 in
  let vFov := (fov * Math_PI) / num 180 in
  num 2 * Math_tan (vFov / num 2) * distance.

Definition handPosition (isMirrored : bool) (aspect : T)
    (wrist middleFingerMCP : HandLandmark T) : Vector3 T :=
  let ratio := num 0 in
  let palmX := px wrist * (num 1 - ratio) + px middleFingerMCP * ratio in
  let palmY := py wrist * (num 1 - ratio) + py middleFingerMCP * ratio in
  let vector :=
    mkVector3 (xCoord3D isMirrored palmX)
              (- (palmY * num 2 - num 1) + num 1)
              (- num 10) in
  let height := viewHeight in
  let width := height * aspect in
  mkVector3 (x vector * (width / num 2)) (y vector * (height / num 2))
            (z vector).

(** *** Scale *)

Definition targetScale (wrist middleFingerMCP : HandLandmark T) : T :=
  let dx := px wrist - px middleFingerMCP in
  let dy := py wrist - py middleFingerMCP in
  let handSize := Math_sqrt (dx * dx + dy * dy) in
  let scaleMultiplier := num 12 in
  handSize * scaleMultiplier.

(** *** Rotation *)

Section Rotation.
Variables (isMirrored : bool) (aspect : T).
Variables (wrist middleFingerMCP indexFingerMCP pinkyFingerMCP : HandLandmark T).

Definition getVector (point : HandLandmark T) : Vector3 T :=
  let xVal := if isMirrored then num 1 - px point else px point in
  let zVal := - pz point in
  mkVector3 (xVal * aspect) (- py point) (zVal * aspect).

Definition vecToUser : Vector3 T :=
  subVectors (getVector wrist) (getVector middleFingerMCP).

Definition palmAcross : Vector3 T :=
  normalize (subVectors (getVector pinkyFingerMCP) (getVector indexFingerMCP)).

Definition fingerDir : Vector3 T :=
  normalize (subVectors (getVector middleFingerMCP) (getVector wrist)).

Definition palmNormal : Vector3 T :=
  let n := normalize (crossVectors palmAcross fingerDir) in
  if z n <? num 0 then negate n else n.

(** [vecToUser] projected on the plane y = 0. *)
Definition projectedForward : Vector3 T :=
  mkVector3 (x vecToUser) (num 0) (z vecToUser).

(** The test of the palm-normal fallback. *)
Definition handIsVertical : bool :=
  lengthSq projectedForward <? num 0.01.

(** [flatForward] after the fallback and before it is normalised. *)
Definition forwardCandidate : Vector3 T :=
  if handIsVertical then mkVector3 (x palmNormal) (num 0) (z palmNormal)
  else projectedForward.

Definition flatForward : Vector3 T := normalize forwardCandidate.

Definition targetY : Vector3 T := mkVector3 (num 0) (num 1) (num 0).

(** [targetZ] is the object [flatForward] when [targetX] is computed ... *)
Definition targetX : Vector3 T :=
  normalize (crossVectors targetY flatForward).

(** ... and is then overwritten in place. *)
Definition targetZ : Vector3 T :=
  normalize (crossVectors targetX targetY).

Definition rotationMatrix : Matrix4 T := makeBasis targetX targetY targetZ.

Definition targetQuaternion : Quaternion T :=
  setFromRotationMatrix rotationMatrix.

End Rotation.

(** *** One detection cycle *)

Definition foundHand (s : Refs) (now : T) : Refs :=
  let s1 := mkRefs (handPositionRef s) (handScaleRef s) (handRotationRef s)
                   (isHandDetected s) (isHandDetectedRef s) now
                   (debugInfo s) in
  if negb (isHandDetectedRef s1) then
    mkRefs (handPositionRef s1) (handScaleRef s1) (handRotationRef s1)
           true true (lastDetectionTimeRef s1) "Hand Found!"
  else s1.

Definition lostHand (s : Refs) (now : T) : Refs :=
  if isHandDetectedRef s then
    let timeSinceLastDetect := now - lastDetectionTimeRef s in
    if timeSinceLastDetect >? num 50 then
      mkRefs (handPositionRef s) (handScaleRef s) (handRotationRef s)
             false false (lastDetectionTimeRef s) "Hand Lost"
    else s
  else s.

Definition setPositionAndScale (s : Refs) (p : Vector3 T) (k : T) : Refs :=
  mkRefs p (mkVector3 k k k) (handRotationRef s)
         (isHandDetected s) (isHandDetectedRef s) (lastDetectionTimeRef s)
         (debugInfo s).

Definition setRotation (s : Refs) (q : Quaternion T) : Refs :=
  mkRefs (handPositionRef s) (handScaleRef s) q
         (isHandDetected s) (isHandDetectedRef s) (lastDetectionTimeRef s)
         (debugInfo s).

(** The body of [if (video.currentTime > 0) { try { ... } catch ... }].
    Reading a coordinate of a landmark the array does not have throws;
    what was written before the throw stays written. *)
Definition detectionCycle (s : Refs)
    (detectForVideo : Outcome (DetectionResult T)) (b : Browser)
    : Refs * Completion :=
  match detectForVideo with
  | Throws => (s, Caught)
  | Returns result =>
    match landmarks result with
    | hand :: _ =>
      let s := foundHand s (performance_now b) in
      match nth_error hand 0, nth_error hand 9 with
      | Some wrist, Some middleFingerMCP =>
        let isMirrored :=
          match facingModeRef b with user => true | environment => false end in
        let aspect := innerWidth b / innerHeight b in
        let s := setPositionAndScale s
                   (handPosition isMirrored aspect wrist middleFingerMCP)
                   (targetScale wrist middleFingerMCP) in
        match nth_error hand 5, nth_error hand 17 with
        | Some indexFingerMCP, Some pinkyFingerMCP =>
          (setRotation s
             (targetQuaternion isMirrored aspect wrist middleFingerMCP
                               indexFingerMCP pinkyFingerMCP), Normal)
        | _, _ => (s, Caught)
        end
      | _, _ => (s, Caught)
      end
    | [] => (lostHand s (performance_now b), Normal)
    end
  end.

(** [predictWebcam]: the guards, one cycle, and whether the next animation
    frame was requested. *)
Definition predictWebcam (s : Refs) (video : option VideoElement)
    (landmarker : option (Outcome (DetectionResult T))) (b : Browser)
    : Refs * bool :=
  match video, landmarker with
  | Some v, Some detectForVideo =>
    if (videoWidth v =? 0)%N || (videoHeight v =? 0)%N then (s, true)
    else if currentTime v >? num 0
         then (fst (detectionCycle s detectForVideo b), true)
         else (s, true)
  | _, _ => (s, false)
  end.

(** A run of cycles, oldest first. *)
Fixpoint runCycles (s : Refs)
    (cs : list (Outcome (DetectionResult T) * Browser)) : Refs :=
  match cs with
  | [] => s
  | (d, b) :: cs' => runCycles (fst (detectionCycle s d b)) cs'
  end.

(** The React state and its ref twin agree. *)
Definition synced (s : Refs) : Prop :=
  isHandDetected s = isHandDetectedRef s.

(** A call on which the detector returns an empty list of hands. *)
Definition isMiss (c : Outcome (DetectionResult T) * Browser) : Prop :=
  exists result, fst c = Returns result /\ landmarks result = [].

End App.

Arguments Refs T : clear implicits.
Arguments Browser T : clear implicits.
Arguments VideoElement T : clear implicits.

(** ** The AR canvas: [HandTrackerGroup] *)

Section Canvas.
Context {T : Type} `{JsNumber T}.

(** [Quaternion.slerp] is three.js' own and is left abstract. *)
Variable slerp : Quaternion T -> Quaternion T -> T -> Quaternion T.

(** The transform of the rendered group, the smoothed pose. *)
Record Group : Type := mkGroup {
  position : Vector3 T;
  scale : Vector3 T;
  quaternion : Quaternion T
}.

(** The [useFrame] callback, run once per display frame. *)
Definition useFrame (groupRef : option Group)
    (positionRef scaleRef : Vector3 T) (rotationRef : Quaternion T)
    : option Group :=
  match groupRef with
  | Some g =>
    Some (mkGroup (lerp (position g) positionRef (num 0.2))
                  (lerp (scale g) scaleRef (num 0.1))
                  (slerp (quaternion g) rotationRef (num 0.15)))
  | None => None
  end.

(** [n] display frames against the same targets. *)
Fixpoint displayFrames (n : nat) (groupRef : option Group)
    (positionRef scaleRef : Vector3 T) (rotationRef : Quaternion T)
    : option Group :=
  match n with
  | O => groupRef
  | S n' =>
    displayFrames n' (useFrame groupRef positionRef scaleRef rotationRef)
                  positionRef scaleRef rotationRef
  end.

End Canvas.

Arguments Group T : clear implicits.

(** ** Inputs used below *)

Section Inputs.
Context {T : Type} `{JsNumber T}.

(** A hand pointing at the camera: wrist and middle knuckle overlap in the
    image and differ in depth only. *)
Definition overlapWrist : HandLandmark T :=
  mkLandmark (num 0.5) (num 0.5) (num 0).

Definition overlapMiddle : HandLandmark T :=
  mkLandmark (num 0.5) (num 0.5) (num 0.05).

End Inputs.

Section CanvasInputs.
Context {T : Type} `{JsNumber T}.

(** A fresh three.js object: at the origin, unit scale, no rotation. *)
Definition freshGroup : Group T :=
  mkGroup (mkVector3 (num 0) (num 0) (num 0))
          (mkVector3 (num 1) (num 1) (num 1))
          (mkQuaternion (num 0) (num 0) (num 0) (num 1)).

(** [slerp] at [t = 1], which copies its argument. *)
Definition slerpCopy (qa qb : Quaternion T) (t : T) : Quaternion T := qb.

Definition somePosition : Vector3 T :=
  mkVector3 (num 1) (num 2) (neg (num 10)).

Definition someScale : Vector3 T :=
  mkVector3 (num 1.2) (num 1.2) (num 1.2).

Definition someRotation : Quaternion T :=
  mkQuaternion (num 0) (num 0) (num 0) (num 1).

(** A group that already sits on [somePosition] and [someScale]. *)
Definition settledGroup : Group T :=
  mkGroup somePosition someScale someRotation.

End CanvasInputs.

Section CycleInputs.
Context {T : Type} `{JsNumber T}.

(** The cells as the component creates them. *)
Definition initialRefs : Refs T :=
  mkRefs (mkVector3 (num 0) (num 0) (num 0))
         (mkVector3 (num 1) (num 1) (num 1))
         (mkQuaternion (num 0) (num 0) (num 0) (num 1))
         false false (num 0) "Init...".

(** The cells while a hand last seen at [t] is shown. *)
Definition shownSince (t : T) : Refs T :=
  mkRefs somePosition someScale someRotation true true t "Hand Found!".

(** A rear camera and a square window, the clock reading [now]. *)
Definition browserAt (now : T) : Browser T :=
  mkBrowser now environment (num 800) (num 800).

Definition noHand : DetectionResult T := mkDetectionResult [] [].

(** A full hand of 21 landmarks with the four the loop reads at indices
    0, 5, 9 and 17; the others repeat the wrist. *)
Definition handOf (wrist indexFingerMCP middleFingerMCP pinkyFingerMCP
                   : HandLandmark T) : list (HandLandmark T) :=
  [wrist; wrist; wrist; wrist; wrist; indexFingerMCP; wrist; wrist; wrist;
   middleFingerMCP; wrist; wrist; wrist; wrist; wrist; wrist; wrist;
   pinkyFingerMCP; wrist; wrist; wrist].

Definition oneHand (hand : list (HandLandmark T)) : DetectionResult T :=
  mkDetectionResult [hand] [hand].

(** An upright hand facing the camera. *)
Definition uprightWrist : HandLandmark T :=
  mkLandmark (num 0.5) (num 0.5) (num 0).
Definition uprightMiddle : HandLandmark T :=
  mkLandmark (num 0.5) (num 0.4) (num 0.05).
Definition uprightIndex : HandLandmark T :=
  mkLandmark (num 0.45) (num 0.42) (num 0.05).
Definition uprightPinky : HandLandmark T :=
  mkLandmark (num 0.55) (num 0.42) (num 0.05).

Definition uprightHand : list (HandLandmark T) :=
  handOf uprightWrist uprightIndex uprightMiddle uprightPinky.

(** All four landmarks on one point. *)
Definition collapsedHand (p : HandLandmark T) : list (HandLandmark T) :=
  handOf p p p p.

End CycleInputs.

Section OrientationInputs.
Context {T : Type} `{JsNumber T}.

(** A hand lying sideways in the image, fingers to the right. *)
Definition sidewaysWrist : HandLandmark T :=
  mkLandmark (num 0.5) (num 0.5) (num 0).
Definition sidewaysMiddle : HandLandmark T :=
  mkLandmark (num 0.7) (num 0.5) (num 0).
Definition sidewaysIndex : HandLandmark T :=
  mkLandmark (num 0.68) (num 0.45) (num 0).
Definition sidewaysPinky : HandLandmark T :=
  mkLandmark (num 0.68) (num 0.55) (num 0).

End OrientationInputs.

(** ** Binary64 vocabulary *)

Definition vectorHasNaN (v : Vector3 float) : bool :=
  PrimFloat.is_nan (x v) || PrimFloat.is_nan (y v) || PrimFloat.is_nan (z v).

Definition quaternionHasNaN (q : Quaternion float) : bool :=
  PrimFloat.is_nan (qx q) || PrimFloat.is_nan (qy q)
  || PrimFloat.is_nan (qz q) || PrimFloat.is_nan (qw q).

(** ** Vocabulary for runs and poses *)

Section PoseVocabulary.
Context {T : Type} `{JsNumber T}.
Local Open Scope js_scope.

(** A call on which no hand is seen: the detector throws or returns an
    empty list of hands. *)
Definition sawNoHand (c : Outcome (DetectionResult T) * Browser T) : Prop :=
  match fst c with
  | Throws => True
  | Returns result => landmarks result = []
  end.

(** The same factor on the three axes. *)
Definition isotropic (v : Vector3 T) : Prop := x v = y v /\ y v = z v.

(** [Quaternion.lengthSq]. *)
Definition quaternionLengthSq (q : Quaternion T) : T :=
  qx q * qx q + qy q * qy q + qz q * qz q + qw q * qw q.

End PoseVocabulary.

(** ** The idle animation of the built-in model *)

Section Rabbit.
Context {T : Type} `{JsNumber T}.
Local Open Scope js_scope.

Variable Math_sin : T -> T.

(** [groupRef.current.position.y] as the [useFrame] callback of
    [CyberpunkRabbit] sets it from [state.clock.elapsedTime]. *)
Definition rabbitHeight (elapsedTime : T) : T :=
  num 0.25 + Math_sin (elapsedTime * num 1) * num 0.05.

End Rabbit.

(** ** src/types.ts: AppState *)

Inductive AppState : Type :=
| IDLE | LOADING_MODEL | REQUESTING_PERMISSION | RUNNING | ERROR.

(** ** src/App.tsx: camera start-up and switching *)

Module Camera.

(** What an awaited promise does. *)
Inductive Attempt (A : Type) : Type :=
| Resolves (a : A)
| Rejects (message : string).
Arguments Rejects {A} message.

(** A media stream, by identity. *)
Definition MediaStream : Type := nat.

(** The cells these functions touch.  [video] is [videoRef.current] with
    its [srcObject]; [stopped] lists the streams whose tracks were
    stopped, latest first; [landmarker] tells whether
    [handLandmarkerRef.current] is set. *)
Record State : Type := mkState {
  appState : AppState;
  errorMsg : string;
  facingMode : FacingMode;
  facingModeRef : FacingMode;
  debugInfo : string;
  video : option (option MediaStream);
  stopped : list MediaStream;
  landmarker : bool
}.

Definition setDebugInfo (s : State) (line : string) : State :=
  mkState (appState s) (errorMsg s) (facingMode s) (facingModeRef s)
          line (video s) (stopped s) (landmarker s).

(** [initMediapipe], given what loading the model does. *)
Definition initMediapipe (s : State) (load : Attempt unit) : State :=
  match load with
  | Resolves _ =>
    mkState REQUESTING_PERMISSION (errorMsg s) (facingMode s)
            (facingModeRef s) "AI Loaded. Requesting Cam..."
            (video s) (stopped s) true
  | Rejects _ =>
    mkState ERROR "Failed to load AI models. Please refresh."
            (facingMode s) (facingModeRef s) "AI Load Failed"
            (video s) (stopped s) (landmarker s)
  end.

(** The outer [catch] of [startCamera]. *)
Definition cameraError (s : State) (msg : string) : State :=
  mkState ERROR
          ("Camera Error: " ++ msg ++ ". Please ensure camera is connected.")
          (facingMode s) (facingModeRef s) "Camera Error"
          (video s) (stopped s) (landmarker s).

(** [startCamera], given what the request for the wanted camera, the
    request for any camera and [play()] do. *)
Definition startCamera (s : State)
    (specific : FacingMode -> Attempt MediaStream)
    (anyCamera : Attempt MediaStream) (play : Attempt unit) : State :=
  let s :=
    match video s with
    | Some (Some stream) =>
      mkState (appState s) (errorMsg s) (facingMode s) (facingModeRef s)
              (debugInfo s) (Some None) (stream :: stopped s) (landmarker s)
    | _ => s
    end in
  let acquired :=
    match specific (facingModeRef s) with
    | Resolves stream => (s, Resolves stream)
    | Rejects _ =>
      (setDebugInfo s "Specific Cam Failed. Retrying...", anyCamera)
    end in
  match acquired with
  | (s, Rejects msg) => cameraError s msg
  | (s, Resolves stream) =>
    match video s with
    | Some _ =>
      let s :=
        mkState (appState s) (errorMsg s) (facingMode s) (facingModeRef s)
                "Cam Active. Waiting..." (Some (Some stream)) (stopped s)
                (landmarker s) in
      match play with
      | Resolves _ => s
      | Rejects msg => cameraError s msg
      end
    | None => s
    end
  end.

(** The stream the two requests of [startCamera] end up with: that of
    the wanted camera, and that of any camera when the first request is
    rejected. *)
Definition acquired (mode : FacingMode)
    (specific : FacingMode -> Attempt MediaStream)
    (anyCamera : Attempt MediaStream) : Attempt MediaStream :=
  match specific mode with
  | Resolves stream => Resolves stream
  | Rejects _ => anyCamera
  end.

(** The effect that starts the camera once the model is loaded. *)
Definition cameraEffect (s : State)
    (specific : FacingMode -> Attempt MediaStream)
    (anyCamera : Attempt MediaStream) (play : Attempt unit) : State :=
  match appState s with
  | REQUESTING_PERMISSION => startCamera s specific anyCamera play
  | _ => s
  end.

(** The [onplaying] handler, up to its call of [predictWebcam]. *)
Definition onplaying (s : State) : State :=
  mkState RUNNING (errorMsg s) (facingMode s) (facingModeRef s)
          "Running" (video s) (stopped s) (landmarker s).

(** [toggleCamera]: the new cells and the delay, in ms, after which
    [startCamera] is to run. *)
Definition toggleCamera (s : State) : State * Z :=
  let newMode :=
    match facingMode s with user => environment | environment => user end in
  (mkState LOADING_MODEL (errorMsg s) newMode newMode
           "Switching Camera..." (video s) (stopped s) (landmarker s),
   100%Z).

End Camera.

(** ** src/App.tsx: the custom model *)

Module Upload.

Record File : Type := mkFile { name : string }.

(** [objectUrls] lists the blob URLs created and not yet revoked;
    [fileInput] is the value of the hidden input, when the ref is set. *)
Record State : Type := mkState {
  customModelUrl : option string;
  customModelName : option string;
  fileInput : option string;
  objectUrls : list string
}.

(** [handleFileChange] on the files of the event, [url] being what
    [URL.createObjectURL] returns. *)
Definition handleFileChange (s : State) (files : list File) (url : string)
    : State :=
  match files with
  | file :: _ =>
    mkState (Some url) (Some (name file)) (fileInput s) (url :: objectUrls s)
  | [] => s
  end.

Definition handleClearModel (s : State) : State :=
  match customModelUrl s with
  | Some url =>
    if (url =? EmptyString)%string then s
    else mkState None None
                 (match fileInput s with
                  | Some _ => Some EmptyString
                  | None => None
                  end)
                 (remove string_dec url (objectUrls s))
  | None => s
  end.

(** What the canvas mounts inside the tracked group. *)
Inductive Child : Type :=
| UserModel (url : string)
| CyberpunkRabbit.

Definition sceneChild (modelUrl : option string) : Child :=
  match modelUrl with
  | Some url => if (url =? EmptyString)%string then CyberpunkRabbit else UserModel url
  | None => CyberpunkRabbit
  end.

End Upload.

Section MoreInputs.
Context {T : Type} `{JsNumber T}.

(** A hand cut off after the wrist: nine landmarks. *)
Definition wristOnlyHand : list (HandLandmark T) :=
  [uprightWrist; uprightWrist; uprightWrist; uprightWrist; uprightWrist;
   uprightIndex; uprightWrist; uprightWrist; uprightWrist].

(** A hand cut off before the pinky knuckle: ten landmarks. *)
Definition noPinkyHand : list (HandLandmark T) :=
  [uprightWrist; uprightWrist; uprightWrist; uprightWrist; uprightWrist;
   uprightIndex; uprightWrist; uprightWrist; uprightWrist; uprightMiddle].

End MoreInputs.

Section VideoInputs.
Context {T : Type} `{JsNumber T}.

(** A playing 640 x 480 video, one second in. *)
Definition playingVideo : VideoElement T := mkVideo 640 480 (num 1).

End VideoInputs.

(** ** The two callbacks together *)

Section AppRun.
Context {T : Type} `{JsNumber T}.
Local Open Scope js_scope.

Variable slerp : Quaternion T -> Quaternion T -> T -> Quaternion T.

(** One turn of the event loop: a detection cycle, or a display frame of
    the canvas. *)
Inductive Tick : Type :=
| Detection (detectForVideo : Outcome (DetectionResult T)) (b : Browser T)
| DisplayFrame.

(** The loop and the canvas share the three target refs: the component
    passes [handPositionRef], [handScaleRef] and [handRotationRef] to the
    canvas, which hands them to the tracked group as [positionRef],
    [scaleRef] and [rotationRef]. *)
Fixpoint runApp (s : Refs T) (groupRef : option (Group T))
    (ticks : list Tick) : Refs T * option (Group T) :=
  match ticks with
  | [] => (s, groupRef)
  | Detection detectForVideo b :: rest =>
    runApp (fst (detectionCycle s detectForVideo b)) groupRef rest
  | DisplayFrame :: rest =>
    runApp s
           (useFrame slerp groupRef (handPositionRef s) (handScaleRef s)
                     (handRotationRef s))
           rest
  end.

(** The point reached from [start] when the offset to [target] has
    shrunk by the factor [k]. *)
Definition approach (start target : Vector3 T) (k : T) : Vector3 T :=
  mkVector3 (x target + (x start - x target) * k)
            (y target + (y start - y target) * k)
            (z target + (z start - z target) * k).

End AppRun.

Arguments Tick T : clear implicits.
Arguments DisplayFrame {T}.

Section UiInputs.

(** The component before anything has loaded, with the video element
    mounted and no stream. *)
Definition mountedCamera : Camera.State :=
  Camera.mkState LOADING_MODEL EmptyString user user "Init..." (Some None) [] false.

(** The component running on stream 1 of the front camera. *)
Definition runningCamera : Camera.State :=
  Camera.mkState RUNNING EmptyString user user "Running" (Some (Some 1%nat)) [] true.

(** Only the rear camera can be opened, as stream 2. *)
Definition rearOnly (mode : FacingMode) : Camera.Attempt Camera.MediaStream :=
  match mode with
  | user => Camera.Rejects "Requested device not found"
  | environment => Camera.Resolves 2%nat
  end.

Definition noModel : Upload.State := Upload.mkState None None (Some EmptyString) [].

End UiInputs.

(** ** Moving and resizing a hand in the image *)

Section HandMotions.
Context {T : Type} `{JsNumber T}.
Local Open Scope js_scope.

(** The landmark [p] moved by the offset [d]. *)
Definition translate (d p : HandLandmark T) : HandLandmark T :=
  mkLandmark (px p + px d) (py p + py d) (pz p + pz d).

(** The landmark [p] moved along the ray from [centre] so that its
    offset from [centre] is [k] times what it was. *)
Definition zoom (k : T) (centre p : HandLandmark T) : HandLandmark T :=
  mkLandmark (px centre + k * (px p - px centre))
             (py centre + k * (py p - py centre))
             (pz centre + k * (pz p - pz centre)).

End HandMotions.

(** ** three.js: [Quaternion.slerp] *)

(** The [slerp] the canvas runs with, in the form three.js has long had
    it (half angle by [Math.atan2]). *)

(** What [slerp] needs of numbers beyond [JsNumber]: [Math.sin],
    [Math.atan2], [Number.EPSILON], and the comparisons [a === b] and
    [a <= b]. *)
Class JsMath (T : Type) : Type := {
  Math_sin : T -> T;
  Math_atan2 : T -> T -> T;
  Number_EPSILON : T;
  strictEquals : T -> T -> bool;
  lessEq : T -> T -> bool
}.

(** The angle of the point [(x, y)], in (-PI, PI]. *)
Definition atan2R (y x : R) : R :=
  if Rlt_dec 0 x then Ratan.atan (y / x)
  else if Rlt_dec x 0
       then if Rle_dec 0 y then Ratan.atan (y / x) + Rtrigo1.PI
            else Ratan.atan (y / x) - Rtrigo1.PI
       else if Rlt_dec 0 y then Rtrigo1.PI / 2
            else if Rlt_dec y 0 then - (Rtrigo1.PI / 2)
                 else 0%R.

#[global] Instance R_math : JsMath R := {|
  Math_sin := Rtrigo_def.sin;
  Math_atan2 := atan2R;
  Number_EPSILON := (/ 2 ^ 52)%R;
  strictEquals := fun a b => if Req_dec_T a b then true else false;
  lessEq := fun a b => if Rle_dec a b then true else false
|}.

Section ThreeQuaternion.
Context {T : Type} `{JsNumber T} `{JsMath T}.
Local Open Scope js_scope.

(** [Quaternion.length]. *)
Definition quaternionLength (q : Quaternion T) : T :=
  Math_sqrt (qx q * qx q + qy q * qy q + qz q * qz q + qw q * qw q).

(** [Quaternion.normalize]: a quaternion of length zero becomes the
    identity. *)
Definition quaternionNormalize (q : Quaternion T) : Quaternion T :=
  let l := quaternionLength q in
  if strictEquals l (num 0) then
    mkQuaternion (num 0) (num 0) (num 0) (num 1)
  else
    let l := num 1 / l in
    mkQuaternion (qx q * l) (qy q * l) (qz q * l) (qw q * l).

(** [this.slerp( qb, t )].  The target is negated when it lies in the
    other hemisphere; a cosine of one or more returns [this] as it is; a
    very small angle is blended linearly and normalised; otherwise the
    two quaternions are weighted by sines of parts of the half angle. *)
Definition Quaternion_slerp (this qb : Quaternion T) (t : T) : Quaternion T :=
  if strictEquals t (num 0) then this
  else if strictEquals t (num 1) then qb
  else
    let x := qx this in
    let y := qy this in
    let z := qz this in
    let w := qw this in
    let cosHalfTheta := w * qw qb + x * qx qb + y * qy qb + z * qz qb in
    let other := cosHalfTheta <? num 0 in
    let target :=
      if other then mkQuaternion (- qx qb) (- qy qb) (- qz qb) (- qw qb)
      else qb in
    let cosHalfTheta := if other then - cosHalfTheta else cosHalfTheta in
    if lessEq (num 1.0) cosHalfTheta then this
    else
      let sqrSinHalfTheta := num 1.0 - cosHalfTheta * cosHalfTheta in
      if lessEq sqrSinHalfTheta Number_EPSILON then
        let s := num 1 - t in
        quaternionNormalize
          (mkQuaternion (s * x + t * qx target) (s * y + t * qy target)
                        (s * z + t * qz target) (s * w + t * qw target))
      else
        let sinHalfTheta := Math_sqrt sqrSinHalfTheta in
        let halfTheta := Math_atan2 sinHalfTheta cosHalfTheta in
        let ratioA := Math_sin ((num 1 - t) * halfTheta) / sinHalfTheta in
        let ratioB := Math_sin (t * halfTheta) / sinHalfTheta in
        mkQuaternion (x * ratioA + qx target * ratioB)
                     (y * ratioA + qy target * ratioB)
                     (z * ratioA + qz target * ratioB)
                     (w * ratioA + qw target * ratioB).

(** [Quaternion.dot]. *)
Definition quaternionDot (a b : Quaternion T) : T :=
  qx a * qx b + qy a * qy b + qz a * qz b + qw a * qw b.

Definition quaternionNegate (q : Quaternion T) : Quaternion T :=
  mkQuaternion (- qx q) (- qy q) (- qz q) (- qw q).

(** Of [target] and its negation, which turn alike, the one in the
    hemisphere of [q]. *)
Definition nearestTo (q target : Quaternion T) : Quaternion T :=
  if quaternionDot q target <? num 0 then quaternionNegate target
  else target.

(** The distance of two quaternions as points of four-space. *)
Definition quaternionDistance (a b : Quaternion T) : T :=
  Math_sqrt ((qx a - qx b) * (qx a - qx b) + (qy a - qy b) * (qy a - qy b)
             + (qz a - qz b) * (qz a - qz b) + (qw a - qw b) * (qw a - qw b)).

(** A rotation target of a fifth of a turn about the vertical. *)
Definition yawRotation : Quaternion T :=
  mkQuaternion (num 0) (num 0.6) (num 0) (num 0.8).

(** A forward vector pointing away from the camera and to the left, and
    the rotation target the loop builds from it: more than half a turn
    about the vertical, with a negative [w]. *)
Definition backForward : Vector3 T :=
  mkVector3 (- num 0.5376) (num 0) (- num 0.8432).

Definition backTurn : Quaternion T :=
  mkQuaternion (num 0) (num 0.96) (num 0) (- num 0.28).

(** The rotation target that a hand collapsed on one point leaves. *)
Definition collapsedRotation : Quaternion T :=
  targetQuaternion false (num 1) uprightWrist uprightWrist
                   uprightWrist uprightWrist.

End ThreeQuaternion.

Section OrientationGroups.
Context {T : Type} `{JsNumber T}.

(** A group that sits on [somePosition], [someScale] and [yawRotation]. *)
Definition settledOnYaw : Group T :=
  mkGroup somePosition someScale yawRotation.

(** A group that sits on [somePosition], [someScale] and the rotation
    target left by a collapsed hand. *)
Definition settledOnCollapsed : Group T :=
  mkGroup somePosition someScale collapsedRotation.

End OrientationGroups.

(** * Properties *)

Local Open Scope R_scope.

(** ** Reading the interface at [R] *)

Lemma num_R (q : Q) : num q = IZR (Qnum q) / IZR (Zpos (Qden q)).
Proof. reflexivity. Qed.

Lemma lt_R_true (a b : R) : a < b -> lt a b = true.
Proof. intro Hab. cbn. destruct (Rlt_dec a b); [reflexivity | contradiction]. Qed.

Lemma lt_R_false (a b : R) : b <= a -> lt a b = false.
Proof. intro Hab. cbn. destruct (Rlt_dec a b); [lra | reflexivity]. Qed.

Lemma lt_R_iff (a b : R) : lt a b = true <-> a < b.
Proof.
  cbn. destruct (Rlt_dec a b); split; intro Hx;
    (assumption || reflexivity || discriminate || contradiction).
Qed.

Lemma or_else_nonzero (a b : R) : a <> 0 -> or_else a b = a.
Proof.
  intro Ha. unfold or_else. cbn.
  destruct (Req_dec_T a 0); [contradiction | reflexivity].
Qed.

Lemma or_else_zero (b : R) : or_else 0 b = b.
Proof.
  unfold or_else. cbn. destruct (Req_dec_T 0 0); [reflexivity | lra].
Qed.

(** Unfold the arithmetic of the interface into that of [R]. *)
Ltac js :=
  cbn [add sub mul div neg Math_sqrt Math_tan Math_PI R_number];
  rewrite ?num_R; cbn [Qnum Qden]; rewrite ?Rdiv_1_r.

Ltac js_in H :=
  cbn [add sub mul div neg Math_sqrt Math_tan Math_PI R_number] in H;
  rewrite ?num_R in H; cbn [Qnum Qden] in H; rewrite ?Rdiv_1_r in H.

Lemma vector3_eq (a b : Vector3 R) :
  x a = x b -> y a = y b -> z a = z b -> a = b.
Proof. destruct a, b; cbn; intros -> -> ->; reflexivity. Qed.

(** ** Viewport projection *)

Lemma blend_ratio_zero (a b : R) : a * (1 - 0) + b * 0 = a.
Proof. lra. Qed.

(** C6.  Mirrored mode at [nx] gives the unmirrored device coordinate of
    [1 - nx], which is the negation of the unmirrored coordinate of [nx];
    so mirrored at 0.3 is unmirrored at 0.7, and both are the negation of
    unmirrored at 0.3. *)
Theorem mirror_symmetry :
  (forall nx : R,
      xCoord3D true nx = (1 - nx) * 2 - 1 /\
      xCoord3D true nx = xCoord3D false (1 - nx) /\
      xCoord3D true nx = - xCoord3D false nx) /\
  xCoord3D true (3 / 10) = xCoord3D false (7 / 10) /\
  xCoord3D true (3 / 10) = - xCoord3D false (3 / 10).
Proof.
  unfold xCoord3D. js. repeat split; intros; lra.
Qed.

(** C7.  The position target is [(x3 * width/2, y3 * height/2, -10)] with
    [y3 = -(ny * 2 - 1) + 1], [height = 2 * 5 * tan (fov / 2)] for a
    vertical field of view of 50 degrees and [width = height * aspect];
    the anchor is the wrist, and neither its depth nor any other landmark
    enters. *)
Theorem viewport_projection (isMirrored : bool) (aspect : R)
    (wrist middleFingerMCP : HandLandmark R) :
  let nx := px wrist in
  let ny := py wrist in
  let x3 := xCoord3D isMirrored nx in
  let y3 := - (ny * 2 - 1) + 1 in
  let fov := 50 * Rtrigo1.PI / 180 in
  let height := 2 * 5 * Rtrigo1.tan (fov / 2) in
  let width := height * aspect in
  let fixedDepth := -10 in
  handPosition isMirrored aspect wrist middleFingerMCP
    = mkVector3 (x3 * (width / 2)) (y3 * (height / 2)) fixedDepth /\
  forall (depth : R) (middle' : HandLandmark R),
    handPosition isMirrored aspect (mkLandmark nx ny depth) middle'
      = handPosition isMirrored aspect wrist middleFingerMCP.
Proof.
  cbv zeta. split.
  - unfold handPosition, viewHeight, xCoord3D. cbn [x y z].
    apply vector3_eq; cbn [x y z]; js; rewrite ?blend_ratio_zero; lra.
  - intros depth m'. unfold handPosition. cbn [x y z px py].
    apply vector3_eq; cbn [x y z]; js;
      rewrite ?blend_ratio_zero; reflexivity.
Qed.

(** ** Scale *)

Lemma sum_squares_zero (a b : R) : a * a + b * b = 0 <-> a = 0 /\ b = 0.
Proof.
  split.
  - intro Hs. split; nra.
  - intros [-> ->]. lra.
Qed.

Lemma targetScale_R (wrist middleFingerMCP : HandLandmark R) :
  targetScale wrist middleFingerMCP
  = R_sqrt.sqrt ((px wrist - px middleFingerMCP) * (px wrist - px middleFingerMCP)
                 + (py wrist - py middleFingerMCP) * (py wrist - py middleFingerMCP))
    * 12.
Proof. unfold targetScale. js. reflexivity. Qed.

Lemma targetScale_zero_iff (wrist middleFingerMCP : HandLandmark R) :
  targetScale wrist middleFingerMCP = 0 <->
  px wrist = px middleFingerMCP /\ py wrist = py middleFingerMCP.
Proof.
  rewrite targetScale_R.
  set (dx := px wrist - px middleFingerMCP).
  set (dy := py wrist - py middleFingerMCP).
  assert (Hpos : 0 <= R_sqrt.sqrt (dx * dx + dy * dy)) by apply sqrt_pos.
  assert (Hsq : 0 <= dx * dx + dy * dy) by nra.
  split.
  - intro Hz.
    assert (Hs : R_sqrt.sqrt (dx * dx + dy * dy) = 0) by lra.
    apply sqrt_eq_0 in Hs; [| exact Hsq].
    apply sum_squares_zero in Hs. subst dx dy. lra.
  - intros [Hx Hy].
    replace (dx * dx + dy * dy) with 0 by (subst dx dy; rewrite Hx, Hy; ring).
    rewrite sqrt_0. lra.
Qed.

(** C2, amended.  The scale target is 12 times the distance between wrist
    and middle knuckle measured in the image plane, on [x] and [y] alone;
    it is never negative, and it is zero exactly when the two landmarks
    have the same [x] and the same [y], whatever their depths. *)
Theorem scale_image_plane (wrist middleFingerMCP : HandLandmark R) :
  let dx := px wrist - px middleFingerMCP in
  let dy := py wrist - py middleFingerMCP in
  targetScale wrist middleFingerMCP = R_sqrt.sqrt (dx * dx + dy * dy) * 12 /\
  0 <= targetScale wrist middleFingerMCP /\
  (targetScale wrist middleFingerMCP = 0 <->
   px wrist = px middleFingerMCP /\ py wrist = py middleFingerMCP).
Proof.
  cbv zeta. split; [apply targetScale_R | split; [| apply targetScale_zero_iff]].
  rewrite targetScale_R.
  apply Rmult_le_pos; [apply sqrt_pos | lra].
Qed.

(** C2 as stated fails: with wrist (0.5, 0.5, 0) and middle knuckle
    (0.5, 0.5, 0.05) the scale is zero although the landmarks differ. *)
Lemma scale_zero_landmarks_apart :
  targetScale (T := R) overlapWrist overlapMiddle = 0 /\
  overlapWrist (T := R) <> overlapMiddle /\
  ~ (targetScale (T := R) overlapWrist overlapMiddle = 0 <->
     overlapWrist (T := R) = overlapMiddle).
Proof.
  assert (Hz : targetScale (T := R) overlapWrist overlapMiddle = 0).
  { apply targetScale_zero_iff. split; reflexivity. }
  assert (Hne : overlapWrist (T := R) <> overlapMiddle).
  { intro He. apply (f_equal (@pz R)) in He.
    cbn [pz overlapWrist overlapMiddle] in He. js_in He. lra. }
  split; [exact Hz | split; [exact Hne |]].
  intros [Hto _]. exact (Hne (Hto Hz)).
Qed.

(** ** Temporal smoother *)

Lemma lerp_distanceToSquared (a t : Vector3 R) (k : R) :
  distanceToSquared (lerp a t k) t
  = (1 - k) * (1 - k) * distanceToSquared a t.
Proof. unfold distanceToSquared, lerp. cbn [x y z]. js. ring. Qed.

Lemma distanceToSquared_nonneg (a b : Vector3 R) : 0 <= distanceToSquared a b.
Proof.
  unfold distanceToSquared. cbv zeta. js.
  pose proof (Rle_0_sqr (x a - x b)) as Hx.
  pose proof (Rle_0_sqr (y a - y b)) as Hy.
  pose proof (Rle_0_sqr (z a - z b)) as Hz.
  unfold Rsqr in Hx, Hy, Hz. lra.
Qed.

Lemma lerp_distanceTo (a t : Vector3 R) (k : R) :
  k <= 1 -> distanceTo (lerp a t k) t = (1 - k) * distanceTo a t.
Proof.
  intro Hk. unfold distanceTo. js. rewrite lerp_distanceToSquared.
  rewrite sqrt_mult_alt by nra.
  rewrite sqrt_square by lra. reflexivity.
Qed.

Lemma distanceTo_nonneg (a b : Vector3 R) : 0 <= distanceTo a b.
Proof. unfold distanceTo. js. apply sqrt_pos. Qed.

Lemma lerp_at_target (t : Vector3 R) (k : R) : lerp t t k = t.
Proof. apply vector3_eq; unfold lerp; cbn [x y z]; js; ring. Qed.

Section Smoother.
Variable slerp : Quaternion R -> Quaternion R -> R -> Quaternion R.
Variables (positionRef scaleRef : Vector3 R) (rotationRef : Quaternion R).

Lemma useFrame_distance (g : Group R) :
  exists g',
    useFrame slerp (Some g) positionRef scaleRef rotationRef = Some g' /\
    distanceTo (position g') positionRef
      = (1 - 2 / 10) * distanceTo (position g) positionRef /\
    distanceTo (scale g') scaleRef
      = (1 - 1 / 10) * distanceTo (scale g) scaleRef.
Proof.
  eexists. split; [reflexivity |]. cbn [position scale].
  rewrite !num_R. cbn [Qnum Qden].
  rewrite !lerp_distanceTo by lra.
  split; reflexivity.
Qed.

Lemma displayFrames_distance (n : nat) : forall g : Group R,
  exists g',
    displayFrames slerp n (Some g) positionRef scaleRef rotationRef = Some g' /\
    distanceTo (position g') positionRef
      = (1 - 2 / 10) ^ n * distanceTo (position g) positionRef /\
    distanceTo (scale g') scaleRef
      = (1 - 1 / 10) ^ n * distanceTo (scale g) scaleRef.
Proof.
  induction n as [| n IH]; intro g.
  - exists g. cbn [displayFrames pow]. repeat split; lra.
  - destruct (useFrame_distance g) as (g1 & Hg1 & Hp1 & Hs1).
    destruct (IH g1) as (g' & Hg' & Hp & Hs).
    exists g'. cbn [displayFrames]. rewrite Hg1. split; [exact Hg' |].
    rewrite Hp, Hs, Hp1, Hs1. cbn [pow]. split; ring.
Qed.

(** A geometric sequence of ratio below one falls under any bound. *)
Lemma geometric_below (q d eps : R) :
  0 <= q < 1 -> 0 <= d -> 0 < eps ->
  exists N, forall n, (N <= n)%nat -> q ^ n * d < eps.
Proof.
  intros Hq Hd Heps.
  destruct (pow_lt_1_zero q) with (y := eps / (d + 1)) as [N HN].
  - rewrite Rabs_pos_eq; lra.
  - apply Rdiv_lt_0_compat; lra.
  - exists N. intros n Hn. specialize (HN n Hn).
    rewrite Rabs_pos_eq in HN by (apply pow_le; lra).
    assert (Hqn : 0 <= q ^ n) by (apply pow_le; lra).
    assert (Hlt : q ^ n * (d + 1) < eps).
    { apply Rmult_lt_compat_r with (r := d + 1) in HN; [| lra].
      unfold Rdiv in HN. rewrite Rmult_assoc, Rinv_l, Rmult_1_r in HN by lra.
      exact HN. }
    nra.
Qed.

(** Position and scale, whatever [slerp] does to the quaternion: against
    fixed targets every display frame multiplies the distance of the
    smoothed position to its target by [1 - 0.2], and that of the smoothed
    scale by [1 - 0.1], so neither distance ever grows; after enough
    frames both are below any positive [eps]; and position and scale stay
    on targets they have reached. *)
Theorem smoother_converges (g : Group R) (eps : R) (Heps : 0 < eps) :
  (exists g1,
      useFrame slerp (Some g) positionRef scaleRef rotationRef = Some g1 /\
      distanceTo (position g1) positionRef
        = (1 - 0.2) * distanceTo (position g) positionRef /\
      distanceTo (scale g1) scaleRef
        = (1 - 0.1) * distanceTo (scale g) scaleRef /\
      distanceTo (position g1) positionRef
        <= distanceTo (position g) positionRef /\
      distanceTo (scale g1) scaleRef <= distanceTo (scale g) scaleRef) /\
  (exists N, forall n, (N <= n)%nat ->
      exists gn,
        displayFrames slerp n (Some g) positionRef scaleRef rotationRef
          = Some gn /\
        distanceTo (position gn) positionRef < eps /\
        distanceTo (scale gn) scaleRef < eps) /\
  (position g = positionRef -> scale g = scaleRef ->
   exists g1,
     useFrame slerp (Some g) positionRef scaleRef rotationRef = Some g1 /\
     position g1 = positionRef /\ scale g1 = scaleRef).
Proof.
  pose proof (distanceTo_nonneg (position g) positionRef) as Hdp.
  pose proof (distanceTo_nonneg (scale g) scaleRef) as Hds.
  split; [| split].
  - destruct (useFrame_distance g) as (g1 & Hg1 & Hp & Hs).
    exists g1. rewrite Hp, Hs. repeat split; try assumption; lra.
  - destruct (geometric_below (q := 1 - 2 / 10) ltac:(lra) Hdp Heps) as [Np HNp].
    destruct (geometric_below (q := 1 - 1 / 10) ltac:(lra) Hds Heps) as [Ns HNs].
    exists (Nat.max Np Ns). intros n Hn.
    destruct (displayFrames_distance n g) as (gn & Hgn & Hp & Hs).
    exists gn. rewrite Hp, Hs. split; [exact Hgn | split].
    + apply HNp. apply Nat.le_trans with (Nat.max Np Ns);
        [apply Nat.le_max_l | exact Hn].
    + apply HNs. apply Nat.le_trans with (Nat.max Np Ns);
        [apply Nat.le_max_r | exact Hn].
  - intros Hp Hs. eexists. split; [reflexivity |]. cbn [position scale].
    rewrite Hp, Hs, !lerp_at_target. split; reflexivity.
Qed.

End Smoother.

(** ** Presence gate *)

Lemma foundHand_presence (s : Refs R) (now : R) :
  synced s ->
  isHandDetected (foundHand s now) = true /\
  isHandDetectedRef (foundHand s now) = true /\
  lastDetectionTimeRef (foundHand s now) = now.
Proof.
  unfold synced, foundHand. cbn. intro Hs.
  destruct (isHandDetectedRef s); cbn; auto.
Qed.

(** A cycle with a hand leaves the presence cells as [foundHand] wrote
    them, wherever the rest of the [try] block stops. *)
Lemma detectionCycle_hand_presence (s : Refs R) (b : Browser R)
    (result : DetectionResult R) (hand : list (HandLandmark R))
    (rest : list (list (HandLandmark R))) :
  landmarks result = hand :: rest ->
  let s' := fst (detectionCycle s (Returns result) b) in
  isHandDetected s' = isHandDetected (foundHand s (performance_now b)) /\
  isHandDetectedRef s' = isHandDetectedRef (foundHand s (performance_now b)) /\
  lastDetectionTimeRef s'
    = lastDetectionTimeRef (foundHand s (performance_now b)).
Proof.
  intro Hl. cbv zeta. unfold detectionCycle. rewrite Hl.
  destruct (nth_error hand 0), (nth_error hand 9); cbn [fst]; auto.
  destruct (nth_error hand 5), (nth_error hand 17); cbn; auto.
Qed.

Lemma detectionCycle_no_hand (s : Refs R) (b : Browser R)
    (result : DetectionResult R) :
  landmarks result = [] ->
  detectionCycle s (Returns result) b
    = (lostHand s (performance_now b), Normal).
Proof. intro Hl. unfold detectionCycle. rewrite Hl. reflexivity. Qed.

Lemma lostHand_cases (s : Refs R) (now : R) :
  (isHandDetectedRef s = true /\ now - lastDetectionTimeRef s > 50 /\
   lostHand s now
     = mkRefs (handPositionRef s) (handScaleRef s) (handRotationRef s)
              false false (lastDetectionTimeRef s) "Hand Lost") \/
  ((isHandDetectedRef s = false \/ now - lastDetectionTimeRef s <= 50) /\
   lostHand s now = s).
Proof.
  unfold lostHand. destruct (isHandDetectedRef s) eqn:Href.
  - js. destruct (Rlt_dec 50 (now - lastDetectionTimeRef s)) as [Hgt | Hle].
    + left. rewrite (lt_R_true Hgt). repeat split; lra.
    + right. rewrite lt_R_false by lra. split; [right; lra | reflexivity].
  - right. split; [left |]; reflexivity.
Qed.

Lemma detectionCycle_synced (s : Refs R) (d : Outcome (DetectionResult R))
    (b : Browser R) :
  synced s -> synced (fst (detectionCycle s d b)).
Proof.
  intro Hs. destruct d as [result |]; [| exact Hs].
  destruct (landmarks result) as [| hand rest] eqn:Hl.
  - rewrite (detectionCycle_no_hand _ _ _ Hl). cbn [fst].
    destruct (lostHand_cases s (performance_now b))
      as [(_ & _ & ->) | (_ & ->)]; [reflexivity | exact Hs].
  - destruct (detectionCycle_hand_presence s b _ Hl) as (H1 & H2 & _).
    destruct (foundHand_presence (performance_now b) Hs) as (H3 & H4 & _).
    unfold synced. rewrite H1, H2, H3, H4. reflexivity.
Qed.

Lemma runCycles_synced (cs : list (Outcome (DetectionResult R) * Browser R)) :
  forall s : Refs R, synced s -> synced (runCycles s cs).
Proof.
  induction cs as [| [d b] cs IH]; intros s Hs; cbn [runCycles].
  - exact Hs.
  - apply IH. apply detectionCycle_synced. exact Hs.
Qed.

(** Over a run of misses the timestamp stays, and the hand stays shown
    exactly when no miss came later than 50 ms after it. *)
Lemma runCycles_misses (cs : list (Outcome (DetectionResult R) * Browser R)) :
  forall s : Refs R,
    synced s -> Forall isMiss cs ->
    lastDetectionTimeRef (runCycles s cs) = lastDetectionTimeRef s /\
    (isHandDetected (runCycles s cs) = true <->
     isHandDetected s = true /\
     Forall (fun c => performance_now (snd c) - lastDetectionTimeRef s <= 50)
            cs).
Proof.
  induction cs as [| [d b] cs IH]; intros s Hs Hm; cbn [runCycles].
  - split; [reflexivity |]. split; [intro Hv; split; [exact Hv | constructor] |].
    intros [Hv _]; exact Hv.
  - inversion Hm as [| c cs' (result & Hd & Hl) Hm']; subst.
    cbn [fst] in Hd. subst d.
    rewrite (detectionCycle_no_hand _ _ _ Hl). cbn [fst].
    assert (Hs' : synced (lostHand s (performance_now b))).
    { pose proof (detectionCycle_synced (Returns result) b Hs) as Hx.
      rewrite (detectionCycle_no_hand _ _ _ Hl) in Hx. exact Hx. }
    destruct (IH _ Hs' Hm') as [Ht Hv]. clear IH.
    destruct (lostHand_cases s (performance_now b))
      as [(Href & Hgt & Heq) | (Hle & Heq)]; rewrite Heq in *.
    + cbn [lastDetectionTimeRef isHandDetected] in *.
      split; [exact Ht |]. split.
      * intro Hx. apply Hv in Hx. destruct Hx as [Hx _]. discriminate.
      * intros [_ Hall]. inversion Hall as [| c0 l0 Hc]; subst.
        cbn [snd] in Hc. lra.
    + split; [exact Ht |]. rewrite Hv. split.
      * intros [Hx Hall]. split; [exact Hx |]. constructor; [| exact Hall].
        cbn [snd]. destruct Hle as [Hoff | Hle]; [| exact Hle].
        unfold synced in Hs. congruence.
      * intros [Hx Hall]. inversion Hall; subst. split; assumption.
Qed.

(** C1.  After any run of calls: a call with a hand shows the object at
    once and records the time of the call; a call without a hand keeps the
    timestamp and leaves the object shown exactly when it was shown and no
    more than 50 ms have passed since the recorded detection, so it hides
    it only past 50 ms; and over a run of calls without a hand the object
    is still shown exactly when none of them came later than 50 ms after
    the recorded detection. *)
Theorem presence_gate_hysteresis
    (s0 : Refs R) (history : list (Outcome (DetectionResult R) * Browser R))
    (b : Browser R) (Hsync : synced s0) :
  let s := runCycles s0 history in
  let now := performance_now b in
  (forall result hand rest,
      landmarks result = hand :: rest ->
      let s' := fst (detectionCycle s (Returns result) b) in
      isHandDetected s' = true /\ isHandDetectedRef s' = true /\
      lastDetectionTimeRef s' = now) /\
  (forall result,
      landmarks result = [] ->
      let s' := fst (detectionCycle s (Returns result) b) in
      lastDetectionTimeRef s' = lastDetectionTimeRef s /\
      (isHandDetected s' = true <->
       isHandDetected s = true /\ now - lastDetectionTimeRef s <= 50) /\
      (isHandDetected s = true -> isHandDetected s' = false ->
       now - lastDetectionTimeRef s > 50)) /\
  (forall misses,
      Forall isMiss misses ->
      lastDetectionTimeRef (runCycles s misses) = lastDetectionTimeRef s /\
      (isHandDetected (runCycles s misses) = true <->
       isHandDetected s = true /\
       Forall (fun c => performance_now (snd c) - lastDetectionTimeRef s <= 50)
              misses)).
Proof.
  cbv zeta.
  assert (Hs : synced (runCycles s0 history)) by (apply runCycles_synced, Hsync).
  set (s := runCycles s0 history) in *.
  split; [| split].
  - intros result hand rest Hl.
    destruct (detectionCycle_hand_presence s b _ Hl) as (H1 & H2 & H3).
    destruct (foundHand_presence (performance_now b) Hs) as (H4 & H5 & H6).
    rewrite H1, H2, H3. auto.
  - intros result Hl.
    pose proof (@runCycles_misses [(Returns result, b)] s Hs) as Hrun.
    cbn [runCycles] in Hrun.
    destruct Hrun as [Ht Hv].
    { constructor; [| constructor]. exists result. split; [reflexivity | exact Hl]. }
    assert (Hiff : isHandDetected (fst (detectionCycle s (Returns result) b)) = true <->
                   isHandDetected s = true /\
                   performance_now b - lastDetectionTimeRef s <= 50).
    { rewrite Hv. split.
      - intros [Hx Hall]. inversion Hall; subst. cbn [snd] in *. auto.
      - intros [Hx Hle]. split; [exact Hx |]. constructor; [exact Hle | constructor]. }
    split; [exact Ht | split; [exact Hiff |]].
    intros Hon Hoff.
    destruct (Rle_or_lt (performance_now b - lastDetectionTimeRef s) 50) as [Hle | Hgt];
      [| exact Hgt].
    assert (Hx : isHandDetected (fst (detectionCycle s (Returns result) b)) = true)
      by (apply Hiff; auto).
    congruence.
  - intros misses Hm. apply runCycles_misses; assumption.
Qed.

(** C1 at the fresh component after one call with a hand at 1000 ms: a
    further call with a hand at 1030 ms shows it, and misses at 1030 ms
    keep the timestamp. *)
Lemma presence_gate_hysteresis_witness :
  synced (initialRefs (T := R)) /\
  let s := runCycles initialRefs
             [(Returns (oneHand uprightHand), browserAt 1000)] in
  isHandDetected
    (fst (detectionCycle s (Returns (oneHand uprightHand)) (browserAt 1030)))
    = true /\
  lastDetectionTimeRef (fst (detectionCycle s (Returns noHand) (browserAt 1030)))
    = lastDetectionTimeRef s /\
  lastDetectionTimeRef (runCycles s [(Returns noHand, browserAt 1030)])
    = lastDetectionTimeRef s.
Proof.
  assert (Hsync : synced (initialRefs (T := R))) by reflexivity.
  split; [exact Hsync |]. cbv zeta.
  destruct (presence_gate_hysteresis
              [(Returns (oneHand uprightHand), browserAt 1000)]
              (browserAt 1030) Hsync) as (Hhand & Hmiss & Hrun).
  split; [| split].
  - apply (Hhand (oneHand uprightHand) uprightHand []). reflexivity.
  - apply (Hmiss noHand). reflexivity.
  - apply Hrun. constructor; [| constructor].
    exists noHand. split; reflexivity.
Defined.

(** ** A throwing detector *)

(** C9, amended.  When the detector throws, the exception is caught and
    the cycle writes nothing: presence, timestamp and targets stay as they
    were.  That is what a cycle without a hand does exactly when that
    cycle would not hide the object: the object is not shown, or at most
    50 ms have passed since the recorded detection. *)
Theorem detector_throw_keeps_state (s : Refs R) (b : Browser R)
    (wl : list (list (HandLandmark R))) :
  detectionCycle s Throws b = (s, Caught) /\
  (fst (detectionCycle s Throws b)
     = fst (detectionCycle s (Returns (mkDetectionResult [] wl)) b) <->
   isHandDetectedRef s = false \/
   performance_now b - lastDetectionTimeRef s <= 50).
Proof.
  split; [reflexivity |].
  cbn [detectionCycle landmarks fst].
  destruct (lostHand_cases s (performance_now b))
    as [(Href & Hgt & Heq) | (Hle & Heq)]; rewrite Heq.
  - split.
    + intro Hx. apply (f_equal (@isHandDetectedRef R)) in Hx.
      cbn [isHandDetectedRef] in Hx. congruence.
    + intros [Hoff | Hle]; [congruence | lra].
  - split; [intros _; exact Hle | reflexivity].
Qed.

(** C9 as stated fails: with the object shown since 0 ms, at 100 ms a
    cycle without a hand hides it while a throwing detector leaves it
    shown. *)
Lemma detector_throw_is_not_a_miss :
  isHandDetected (fst (detectionCycle (shownSince 0) Throws (browserAt 100)))
    = true /\
  isHandDetected
    (fst (detectionCycle (shownSince 0) (Returns noHand) (browserAt 100)))
    = false /\
  fst (detectionCycle (shownSince 0) Throws (browserAt 100))
    <> fst (detectionCycle (T := R) (shownSince 0) (Returns noHand)
                           (browserAt 100)).
Proof.
  assert (Hlost : isHandDetected
            (fst (detectionCycle (T := R) (shownSince 0) (Returns noHand)
                                 (browserAt 100))) = false).
  { cbn [detectionCycle landmarks noHand fst browserAt performance_now].
    unfold lostHand. cbn [isHandDetectedRef shownSince lastDetectionTimeRef].
    js. rewrite lt_R_true by lra. reflexivity. }
  split; [reflexivity | split; [exact Hlost |]].
  intro Heq. rewrite <- Heq in Hlost. discriminate Hlost.
Qed.

(** ** A cycle without a hand *)

(** C10.  A cycle on which the detector reports no hand leaves the three
    targets and the detection timestamp as they were, so the next display
    frame blends toward the same pose; and when the object is not shown it
    leaves every cell as it was. *)
Theorem no_hand_frame (s : Refs R) (b : Browser R)
    (wl : list (list (HandLandmark R))) (Hsync : synced s) :
  let s' := fst (detectionCycle s (Returns (mkDetectionResult [] wl)) b) in
  handPositionRef s' = handPositionRef s /\
  handScaleRef s' = handScaleRef s /\
  handRotationRef s' = handRotationRef s /\
  lastDetectionTimeRef s' = lastDetectionTimeRef s /\
  (forall slerp (groupRef : option (Group R)),
      useFrame slerp groupRef
               (handPositionRef s') (handScaleRef s') (handRotationRef s')
      = useFrame slerp groupRef
                 (handPositionRef s) (handScaleRef s) (handRotationRef s)) /\
  (isHandDetected s = false -> s' = s).
Proof.
  cbv zeta. cbn [detectionCycle landmarks fst].
  destruct (lostHand_cases s (performance_now b))
    as [(Href & Hgt & Heq) | (Hle & Heq)]; rewrite Heq.
  - cbn. repeat split. intro Hoff. unfold synced in Hsync. congruence.
  - repeat split.
Qed.

(** C10 at the fresh component, where nothing is shown. *)
Lemma no_hand_frame_witness :
  synced (initialRefs (T := R)) /\
  isHandDetected (initialRefs (T := R)) = false /\
  fst (detectionCycle initialRefs (Returns noHand) (browserAt 100))
    = initialRefs (T := R).
Proof.
  assert (Hsync : synced (initialRefs (T := R))) by reflexivity.
  split; [exact Hsync | split; [reflexivity |]].
  apply (no_hand_frame (browserAt 100) [] Hsync). reflexivity.
Defined.

(** ** Orientation *)

Lemma lengthSq_R (v : Vector3 R) :
  lengthSq v = x v * x v + y v * y v + z v * z v.
Proof. reflexivity. Qed.

Lemma lengthSq_nonneg (v : Vector3 R) : 0 <= lengthSq v.
Proof.
  rewrite lengthSq_R.
  pose proof (Rle_0_sqr (x v)) as Hx.
  pose proof (Rle_0_sqr (y v)) as Hy.
  pose proof (Rle_0_sqr (z v)) as Hz.
  unfold Rsqr in Hx, Hy, Hz. lra.
Qed.

(** Normalising a vector of nonzero length scales it by a positive factor
    to squared length one. *)
Lemma normalize_direction (v : Vector3 R) :
  lengthSq v <> 0 ->
  exists k, 0 < k /\ k * k * lengthSq v = 1 /\
            normalize v = mkVector3 (x v * k) (y v * k) (z v * k).
Proof.
  intro Hnz.
  pose proof (lengthSq_nonneg v) as Hge.
  assert (Hpos : 0 < R_sqrt.sqrt (lengthSq v)) by (apply sqrt_lt_R0; lra).
  exists (1 / R_sqrt.sqrt (lengthSq v)). split; [| split].
  - apply Rdiv_lt_0_compat; lra.
  - pose proof (sqrt_sqrt (lengthSq v) Hge) as Hsq.
    rewrite <- Hsq at 3. field. lra.
  - unfold normalize, divideScalar, multiplyScalar, length.
    cbn [Math_sqrt R_number].
    rewrite or_else_nonzero by lra. js. reflexivity.
Qed.

Lemma normalize_lengthSq (v : Vector3 R) :
  lengthSq v <> 0 -> lengthSq (normalize v) = 1.
Proof.
  intro Hnz. destruct (normalize_direction Hnz) as (k & Hk & Hkk & ->).
  rewrite lengthSq_R in *. cbn [x y z]. nra.
Qed.

(** A vector of length one is its own normalisation. *)
Lemma normalize_unit (v : Vector3 R) : lengthSq v = 1 -> normalize v = v.
Proof.
  intro Hone. unfold normalize, divideScalar, multiplyScalar, length.
  cbn [Math_sqrt R_number]. rewrite Hone, sqrt_1.
  rewrite or_else_nonzero by lra.
  apply vector3_eq; cbn [x y z]; js; lra.
Qed.

(** three.js leaves the zero vector alone. *)
Lemma normalize_zero (v : Vector3 R) :
  x v = 0 -> y v = 0 -> z v = 0 -> normalize v = mkVector3 0 0 0.
Proof.
  intros Hx Hy Hz. unfold normalize, divideScalar, multiplyScalar, length.
  rewrite lengthSq_R, Hx, Hy, Hz. cbn [Math_sqrt R_number].
  replace (0 * 0 + 0 * 0 + 0 * 0) with 0 by ring.
  rewrite sqrt_0, or_else_zero.
  apply vector3_eq; cbn [x y z]; js; lra.
Qed.

Lemma length_of_unit (v : Vector3 R) : lengthSq v = 1 -> length v = 1.
Proof. intro Hone. unfold length. cbn [Math_sqrt R_number]. rewrite Hone. apply sqrt_1. Qed.

Section Basis.
Variables (isMirrored : bool) (aspect : R).
Variables (wrist middleFingerMCP indexFingerMCP pinkyFingerMCP : HandLandmark R).

Local Abbreviation candidate :=
  (forwardCandidate isMirrored aspect wrist middleFingerMCP
                    indexFingerMCP pinkyFingerMCP).
Local Abbreviation forward :=
  (flatForward isMirrored aspect wrist middleFingerMCP
               indexFingerMCP pinkyFingerMCP).
Local Abbreviation X :=
  (targetX isMirrored aspect wrist middleFingerMCP
           indexFingerMCP pinkyFingerMCP).
Local Abbreviation Z :=
  (targetZ isMirrored aspect wrist middleFingerMCP
           indexFingerMCP pinkyFingerMCP).

Lemma forwardCandidate_flat : y candidate = 0.
Proof.
  unfold forwardCandidate, projectedForward.
  destruct (handIsVertical _ _ _ _); cbn [y]; js; lra.
Qed.

(** Whenever the forward candidate is not the zero vector the basis is
    [(b, 0, -a)], [(0, 1, 0)], [(a, 0, b)] with [a * a + b * b = 1]. *)
Lemma basis_of_forward :
  lengthSq candidate <> 0 ->
  exists a b, a * a + b * b = 1 /\
    forward = mkVector3 a 0 b /\
    X = mkVector3 b 0 (- a) /\ Z = mkVector3 a 0 b.
Proof.
  intro Hnz.
  destruct (normalize_direction Hnz) as (k & Hk & Hkk & Hn).
  pose proof forwardCandidate_flat as Hy.
  exists (x candidate * k), (z candidate * k).
  assert (Hab : x candidate * k * (x candidate * k)
                + z candidate * k * (z candidate * k) = 1).
  { rewrite lengthSq_R, Hy in Hkk. nra. }
  assert (Hf : forward = mkVector3 (x candidate * k) 0 (z candidate * k)).
  { unfold flatForward. rewrite Hn.
    apply vector3_eq; cbn [x y z]; try reflexivity. rewrite Hy. ring. }
  assert (HX : X = mkVector3 (z candidate * k) 0 (- (x candidate * k))).
  { unfold targetX. rewrite Hf.
    rewrite normalize_unit.
    - apply vector3_eq; unfold crossVectors, targetY; cbn [x y z]; js; ring.
    - rewrite lengthSq_R. unfold crossVectors, targetY. cbn [x y z]. js. nra. }
  split; [exact Hab | split; [exact Hf | split; [exact HX |]]].
  unfold targetZ. rewrite HX.
  rewrite normalize_unit.
  - apply vector3_eq; unfold crossVectors, targetY; cbn [x y z]; js; ring.
  - rewrite lengthSq_R. unfold crossVectors, targetY. cbn [x y z]. js. nra.
Qed.

End Basis.

Lemma forwardCandidate_nonzero (isMirrored : bool) (aspect : R)
    (wrist middleFingerMCP indexFingerMCP pinkyFingerMCP : HandLandmark R) :
  0.01 <= lengthSq (projectedForward isMirrored aspect wrist middleFingerMCP) \/
  (x (palmNormal isMirrored aspect wrist middleFingerMCP
                 indexFingerMCP pinkyFingerMCP) <> 0 \/
   z (palmNormal isMirrored aspect wrist middleFingerMCP
                 indexFingerMCP pinkyFingerMCP) <> 0) ->
  lengthSq (forwardCandidate isMirrored aspect wrist middleFingerMCP
                             indexFingerMCP pinkyFingerMCP) <> 0.
Proof.
  intro Hnd. unfold forwardCandidate, handIsVertical.
  set (proj := projectedForward isMirrored aspect wrist middleFingerMCP) in *.
  set (n := palmNormal isMirrored aspect wrist middleFingerMCP
                       indexFingerMCP pinkyFingerMCP) in *.
  rewrite num_R. cbn [Qnum Qden].
  destruct (Rlt_dec (lengthSq proj) (1 / 100)) as [Hlt | Hge].
  - rewrite (lt_R_true Hlt). destruct Hnd as [Hbig | Hn]; [lra |].
    rewrite lengthSq_R. cbn [x y z]. js.
    destruct Hn as [Hn | Hn]; nra.
  - rewrite lt_R_false by lra. lra.
Qed.

(** C4.  When the projected forward vector reaches the threshold 0.01 in
    squared length, or the palm normal has a nonzero horizontal
    projection, the three axes are pairwise orthogonal and of length one. *)
Theorem basis_orthonormal (isMirrored : bool) (aspect : R)
    (wrist middleFingerMCP indexFingerMCP pinkyFingerMCP : HandLandmark R)
    (Hforward :
       0.01 <= lengthSq (projectedForward isMirrored aspect wrist
                                          middleFingerMCP) \/
       (x (palmNormal isMirrored aspect wrist middleFingerMCP
                      indexFingerMCP pinkyFingerMCP) <> 0 \/
        z (palmNormal isMirrored aspect wrist middleFingerMCP
                      indexFingerMCP pinkyFingerMCP) <> 0)) :
  let X := targetX isMirrored aspect wrist middleFingerMCP
                   indexFingerMCP pinkyFingerMCP in
  let Y := targetY in
  let Z := targetZ isMirrored aspect wrist middleFingerMCP
                   indexFingerMCP pinkyFingerMCP in
  dot X Y = 0 /\ dot X Z = 0 /\ dot Y Z = 0 /\
  length X = 1 /\ length Y = 1 /\ length Z = 1.
Proof.
  cbv zeta.
  pose proof (@forwardCandidate_nonzero isMirrored aspect wrist middleFingerMCP
                indexFingerMCP pinkyFingerMCP Hforward) as Hnz.
  destruct (@basis_of_forward isMirrored aspect wrist middleFingerMCP
              indexFingerMCP pinkyFingerMCP Hnz)
    as (a & b & Hab & _ & -> & ->).
  repeat split.
  - unfold dot, targetY. cbn [x y z]. js. ring.
  - unfold dot. cbn [x y z]. js. ring.
  - unfold dot, targetY. cbn [x y z]. js. ring.
  - apply length_of_unit. rewrite lengthSq_R. cbn [x y z]. nra.
  - apply length_of_unit. rewrite lengthSq_R. unfold targetY. cbn [x y z]. js. ring.
  - apply length_of_unit. rewrite lengthSq_R. cbn [x y z]. nra.
Qed.

(** C4 at a hand lying sideways, whose projected forward vector has
    squared length 0.04. *)
Lemma basis_orthonormal_witness :
  0.01 <= lengthSq (projectedForward (T := R) false 1
                                     sidewaysWrist sidewaysMiddle) /\
  dot (targetX (T := R) false 1 sidewaysWrist sidewaysMiddle
               sidewaysIndex sidewaysPinky)
      (targetZ false 1 sidewaysWrist sidewaysMiddle
               sidewaysIndex sidewaysPinky) = 0 /\
  length (targetZ (T := R) false 1 sidewaysWrist sidewaysMiddle
                  sidewaysIndex sidewaysPinky) = 1.
Proof.
  assert (Hbig : 0.01 <= lengthSq (projectedForward (T := R) false 1
                                     sidewaysWrist sidewaysMiddle)).
  { rewrite lengthSq_R.
    unfold projectedForward, vecToUser, subVectors, getVector.
    cbn [x y z px py pz sidewaysWrist sidewaysMiddle]. js. lra. }
  split; [exact Hbig |].
  pose proof (@basis_orthonormal false 1 sidewaysWrist sidewaysMiddle
                sidewaysIndex sidewaysPinky (or_introl Hbig)) as Hb.
  cbv zeta in Hb. destruct Hb as (_ & Hxz & _ & _ & _ & Hz).
  split; [exact Hxz | exact Hz].
Defined.

(** ** The upright hand *)

Lemma pos_square_one (t : R) : 0 < t -> t * t = 1 -> t = 1.
Proof. intros Hpos Hsq. nra. Qed.

(** A vector along +z normalises to the unit +z axis. *)
Lemma normalize_along_z (v : Vector3 R) :
  x v = 0 -> y v = 0 -> 0 < z v -> normalize v = mkVector3 0 0 1.
Proof.
  intros Hx Hy Hz.
  assert (Hnz : lengthSq v <> 0) by (rewrite lengthSq_R, Hx, Hy; nra).
  destruct (normalize_direction Hnz) as (k & Hk & Hkk & ->).
  rewrite lengthSq_R, Hx, Hy in Hkk.
  assert (Hone : z v * k = 1) by (apply pos_square_one; nra).
  apply vector3_eq; cbn [x y z]; rewrite ?Hx, ?Hy; lra.
Qed.

Ltac upright_unfold :=
  unfold getVector, subVectors;
  cbn [x y z px py pz uprightWrist uprightMiddle uprightIndex uprightPinky];
  js.

Lemma upright_vecToUser :
  vecToUser (T := R) false 1 uprightWrist uprightMiddle
  = mkVector3 0 (- (1 / 10)) (5 / 100).
Proof. unfold vecToUser. apply vector3_eq; upright_unfold; lra. Qed.

Lemma upright_handIsVertical :
  handIsVertical (T := R) false 1 uprightWrist uprightMiddle = true.
Proof.
  unfold handIsVertical, projectedForward. rewrite upright_vecToUser.
  rewrite lengthSq_R. cbn [x y z]. js. apply lt_R_true. lra.
Qed.

(** The palm normal of the upright hand has no sideways component and
    points toward the camera. *)
Lemma upright_palmNormal :
  let n := palmNormal (T := R) false 1 uprightWrist uprightMiddle
                      uprightIndex uprightPinky in
  x n = 0 /\ 0 < z n.
Proof.
  cbv zeta. unfold palmNormal, palmAcross, fingerDir.
  set (across := subVectors (getVector false 1 uprightPinky)
                            (getVector false 1 uprightIndex)).
  set (finger := subVectors (getVector false 1 uprightMiddle)
                            (getVector false 1 uprightWrist)).
  assert (Ha : across = mkVector3 (1 / 10) 0 0)
    by (subst across; apply vector3_eq; upright_unfold; lra).
  assert (Hf : finger = mkVector3 0 (1 / 10) (- (5 / 100)))
    by (subst finger; apply vector3_eq; upright_unfold; lra).
  rewrite Ha, Hf.
  destruct (@normalize_direction (mkVector3 (1 / 10) 0 0))
    as (k1 & Hk1 & Hkk1 & ->); [rewrite lengthSq_R; cbn [x y z]; lra |].
  destruct (@normalize_direction (mkVector3 0 (1 / 10) (- (5 / 100))))
    as (k2 & Hk2 & Hkk2 & ->); [rewrite lengthSq_R; cbn [x y z]; lra |].
  rewrite lengthSq_R in Hkk1, Hkk2. cbn [x y z] in Hkk1, Hkk2.
  assert (H1 : 1 / 10 * k1 = 1) by (apply pos_square_one; nra).
  set (c := crossVectors _ _).
  assert (Hcx : x c = 0) by (subst c; unfold crossVectors; cbn [x y z]; js; ring).
  assert (Hcz : z c = 1 / 10 * k2)
    by (subst c; unfold crossVectors; cbn [x y z]; js; rewrite H1; ring).
  assert (Hcpos : 0 < z c) by (rewrite Hcz; nra).
  assert (Hnz : lengthSq c <> 0).
  { rewrite lengthSq_R. pose proof (Rle_0_sqr (x c)). pose proof (Rle_0_sqr (y c)).
    unfold Rsqr in *. nra. }
  destruct (normalize_direction Hnz) as (k3 & Hk3 & _ & ->).
  cbn [x y z]. rewrite lt_R_false.
  - cbn [x y z]. rewrite Hcx. split; [ring | nra].
  - js. nra.
Qed.

Lemma upright_flatForward :
  flatForward (T := R) false 1 uprightWrist uprightMiddle
              uprightIndex uprightPinky = mkVector3 0 0 1.
Proof.
  unfold flatForward, forwardCandidate. rewrite upright_handIsVertical.
  destruct upright_palmNormal as [Hx Hz].
  apply normalize_along_z; cbn [x y z]; js; (reflexivity || assumption).
Qed.

Lemma upright_targetX :
  targetX (T := R) false 1 uprightWrist uprightMiddle
          uprightIndex uprightPinky = mkVector3 1 0 0.
Proof.
  unfold targetX. rewrite upright_flatForward.
  rewrite normalize_unit.
  - apply vector3_eq; unfold crossVectors, targetY; cbn [x y z]; js; ring.
  - rewrite lengthSq_R. unfold crossVectors, targetY. cbn [x y z]. js. ring.
Qed.

Lemma upright_targetZ :
  targetZ (T := R) false 1 uprightWrist uprightMiddle
          uprightIndex uprightPinky = mkVector3 0 0 1.
Proof.
  unfold targetZ. rewrite upright_targetX.
  rewrite normalize_unit.
  - apply vector3_eq; unfold crossVectors, targetY; cbn [x y z]; js; ring.
  - rewrite lengthSq_R. unfold crossVectors, targetY. cbn [x y z]. js. ring.
Qed.

Lemma upright_targetScale :
  targetScale (T := R) uprightWrist uprightMiddle = 1.2.
Proof.
  rewrite targetScale_R.
  cbn [px py uprightWrist uprightMiddle]. js.
  replace ((5 / 10 - 5 / 10) * (5 / 10 - 5 / 10)
           + (5 / 10 - 4 / 10) * (5 / 10 - 4 / 10))
    with (1 / 10 * (1 / 10)) by lra.
  rewrite sqrt_square by lra. lra.
Qed.

Lemma quaternion_eq (a b : Quaternion R) :
  qx a = qx b -> qy a = qy b -> qz a = qz b -> qw a = qw b -> a = b.
Proof. destruct a, b; cbn; intros -> -> -> ->; reflexivity. Qed.

(** The upright basis is the identity rotation. *)
Lemma upright_targetQuaternion :
  targetQuaternion (T := R) false 1 uprightWrist uprightMiddle
                   uprightIndex uprightPinky = mkQuaternion 0 0 0 1.
Proof.
  unfold targetQuaternion, rotationMatrix.
  rewrite upright_targetX, upright_targetZ.
  unfold setFromRotationMatrix, makeBasis, targetY.
  cbn [n11 n12 n13 n21 n22 n23 n31 n32 n33 x y z]. js.
  rewrite lt_R_true by lra.
  replace (1 + 1 + 1 + 10 / 10) with (2 * 2) by lra.
  rewrite sqrt_square by lra.
  apply quaternion_eq; cbn [qx qy qz qw]; lra.
Qed.

(** C3, amended.  For the upright hand on a rear camera in a square
    window the cycle runs to its end and produces a scale of exactly
    0.1 * 12 = 1.2 (the knuckle is 0.1 away from the wrist in the image),
    a horizontal position of 0, and, through the palm-normal fallback that
    the near-vertical finger direction triggers, the forward axis
    (0, 0, 1) with right axis (1, 0, 0), the identity rotation. *)
Theorem upright_hand_scenario (s : Refs R) (now : R) :
  let r := detectionCycle s (Returns (oneHand uprightHand)) (browserAt now) in
  snd r = Normal /\
  handScaleRef (fst r) = mkVector3 1.2 1.2 1.2 /\
  x (handPositionRef (fst r)) = 0 /\
  handIsVertical (T := R) false 1 uprightWrist uprightMiddle = true /\
  targetZ (T := R) false 1 uprightWrist uprightMiddle uprightIndex uprightPinky
    = mkVector3 0 0 1 /\
  targetX (T := R) false 1 uprightWrist uprightMiddle uprightIndex uprightPinky
    = mkVector3 1 0 0 /\
  handRotationRef (fst r) = mkQuaternion 0 0 0 1.
Proof.
  cbv zeta.
  cbn [detectionCycle landmarks oneHand uprightHand handOf nth_error
       browserAt facingModeRef innerWidth innerHeight performance_now
       fst snd setRotation setPositionAndScale
       handScaleRef handPositionRef handRotationRef].
  js. replace (800 / 800) with 1 by lra.
  rewrite upright_targetScale, upright_targetQuaternion.
  repeat split.
  - unfold handPosition, xCoord3D. cbn [x y z px py uprightWrist uprightMiddle].
    js. lra.
  - exact upright_handIsVertical.
  - exact upright_targetZ.
  - exact upright_targetX.
Qed.

(** C3 as stated fails on the scale: it is 1.2, which is 0.14 below the
    1.34 the claim expects and more than that below 0.1118 * 12 (0.1118
    is the distance with depth counted in; the code measures in the image
    plane). *)
Lemma upright_scale_is_not_134 :
  targetScale (T := R) uprightWrist uprightMiddle = 1.2 /\
  0.14 < 0.1118 * 12 - targetScale (T := R) uprightWrist uprightMiddle /\
  1.34 - targetScale (T := R) uprightWrist uprightMiddle = 0.14 /\
  ~ Rabs (targetScale (T := R) uprightWrist uprightMiddle - 1.34) <= 0.1.
Proof.
  rewrite upright_targetScale. repeat split; try lra.
  intro Habs. rewrite Rabs_left in Habs; lra.
Qed.

(** ** Coincident landmarks *)

Lemma subVectors_self (v : Vector3 R) : subVectors v v = mkVector3 0 0 0.
Proof. apply vector3_eq; unfold subVectors; cbn [x y z]; js; ring. Qed.

Lemma crossVectors_zero_l (v : Vector3 R) :
  crossVectors (mkVector3 0 0 0) v = mkVector3 0 0 0.
Proof. apply vector3_eq; unfold crossVectors; cbn [x y z]; js; ring. Qed.

Lemma crossVectors_zero_r (v : Vector3 R) :
  crossVectors v (mkVector3 0 0 0) = mkVector3 0 0 0.
Proof. apply vector3_eq; unfold crossVectors; cbn [x y z]; js; ring. Qed.

Section Collapsed.
Variables (isMirrored : bool) (aspect : R) (p : HandLandmark R).

Lemma collapsed_palmNormal :
  palmNormal isMirrored aspect p p p p = mkVector3 0 0 0.
Proof.
  unfold palmNormal, palmAcross, fingerDir.
  rewrite subVectors_self, (@normalize_zero (mkVector3 0 0 0)) by reflexivity.
  rewrite crossVectors_zero_l, (@normalize_zero (mkVector3 0 0 0)) by reflexivity.
  cbn [z]. rewrite lt_R_false by (js; lra). reflexivity.
Qed.

Lemma collapsed_handIsVertical :
  handIsVertical isMirrored aspect p p = true.
Proof.
  unfold handIsVertical, projectedForward, vecToUser.
  rewrite subVectors_self, lengthSq_R. cbn [x y z]. js.
  apply lt_R_true. lra.
Qed.

Lemma collapsed_flatForward :
  flatForward isMirrored aspect p p p p = mkVector3 0 0 0.
Proof.
  unfold flatForward, forwardCandidate.
  rewrite collapsed_handIsVertical, collapsed_palmNormal.
  apply normalize_zero; cbn [x y z]; js; lra.
Qed.

Lemma collapsed_targetX :
  targetX isMirrored aspect p p p p = mkVector3 0 0 0.
Proof.
  unfold targetX. rewrite collapsed_flatForward, crossVectors_zero_r.
  apply normalize_zero; reflexivity.
Qed.

Lemma collapsed_targetZ :
  targetZ isMirrored aspect p p p p = mkVector3 0 0 0.
Proof.
  unfold targetZ. rewrite collapsed_targetX, crossVectors_zero_l.
  apply normalize_zero; reflexivity.
Qed.

Lemma collapsed_targetQuaternion :
  targetQuaternion isMirrored aspect p p p p
  = mkQuaternion 0 0 0 (R_sqrt.sqrt 2 / 2).
Proof.
  unfold targetQuaternion, rotationMatrix.
  rewrite collapsed_targetX, collapsed_targetZ.
  unfold setFromRotationMatrix, makeBasis, targetY.
  cbn [n11 n12 n13 n21 n22 n23 n31 n32 n33 x y z]. js.
  rewrite lt_R_true by lra.
  replace (0 + 1 + 0 + 10 / 10) with 2 by lra.
  assert (Hs : 0 < R_sqrt.sqrt 2) by (apply sqrt_lt_R0; lra).
  apply quaternion_eq; cbn [qx qy qz qw]; try lra.
  field. lra.
Qed.

Lemma collapsed_targetScale : targetScale p p = 0.
Proof. apply targetScale_zero_iff. split; reflexivity. Qed.

End Collapsed.

(** What a cycle writes when the four landmarks sit on one point. *)
Lemma collapsed_cycle (s : Refs R) (b : Browser R) (p : HandLandmark R) :
  let isMirrored :=
    match facingModeRef b with user => true | environment => false end in
  let aspect := innerWidth b / innerHeight b in
  let r := detectionCycle s (Returns (oneHand (collapsedHand p))) b in
  snd r = Normal /\
  handPositionRef (fst r) = handPosition isMirrored aspect p p /\
  handScaleRef (fst r) = mkVector3 0 0 0 /\
  handRotationRef (fst r) = mkQuaternion 0 0 0 (R_sqrt.sqrt 2 / 2).
Proof.
  cbv zeta.
  cbn [detectionCycle landmarks oneHand collapsedHand handOf nth_error
       fst snd setRotation setPositionAndScale
       handScaleRef handPositionRef handRotationRef].
  rewrite collapsed_targetScale, collapsed_targetQuaternion.
  repeat split.
Qed.

(** On binary64 the collapsed hand at (0.5, 0.5, 0), in a square window
    and in either camera mode, yields a basis and a quaternion without
    NaN. *)
Lemma collapsed_binary64 (tanF : float -> float) (isMirrored : bool) :
  let F := float_number tanF in
  let aspect := @div float F (@num float F 800) (@num float F 800) in
  let p := @uprightWrist float F in
  @targetX float F isMirrored aspect p p p p
    = mkVector3 0%float 0%float 0%float /\
  @targetZ float F isMirrored aspect p p p p
    = mkVector3 0%float 0%float 0%float /\
  vectorHasNaN (@targetY float F) = false /\
  quaternionHasNaN (@targetQuaternion float F isMirrored aspect p p p p)
    = false /\
  @targetScale float F p p = 0%float.
Proof.
  destruct isMirrored; vm_compute; repeat split.
Qed.

(** C5, amended.  When wrist and the three knuckles coincide the cycle
    runs to its end without throwing and computes only finite numbers:
    three.js normalises a zero vector to itself, so the basis is
    X = (0, 0, 0), Y = (0, 1, 0), Z = (0, 0, 0), without NaN (on binary64
    too, at the sample point).  The targets are not held, though: the
    position target becomes the projection of the common point, the scale
    target becomes 0 and the rotation target becomes the quaternion
    (0, 0, 0, sqrt 2 / 2) of that degenerate basis. *)
Theorem collapsed_hand_overwrites_targets
    (s : Refs R) (b : Browser R) (p : HandLandmark R) :
  let isMirrored :=
    match facingModeRef b with user => true | environment => false end in
  let aspect := innerWidth b / innerHeight b in
  let r := detectionCycle s (Returns (oneHand (collapsedHand p))) b in
  snd r = Normal /\
  targetX isMirrored aspect p p p p = mkVector3 0 0 0 /\
  targetY = mkVector3 0 1 0 /\
  targetZ isMirrored aspect p p p p = mkVector3 0 0 0 /\
  handPositionRef (fst r) = handPosition isMirrored aspect p p /\
  handScaleRef (fst r) = mkVector3 0 0 0 /\
  handRotationRef (fst r) = mkQuaternion 0 0 0 (R_sqrt.sqrt 2 / 2) /\
  (forall (tanF : float -> float) (mirrored : bool),
      let F := float_number tanF in
      let one := @div float F (@num float F 800) (@num float F 800) in
      let q := @uprightWrist float F in
      vectorHasNaN (@targetX float F mirrored one q q q q) = false /\
      vectorHasNaN (@targetZ float F mirrored one q q q q) = false /\
      quaternionHasNaN (@targetQuaternion float F mirrored one q q q q)
        = false).
Proof.
  cbv zeta.
  destruct (collapsed_cycle s b p) as (Hn & Hp & Hs & Hq).
  split; [exact Hn |].
  split; [apply collapsed_targetX |].
  split; [apply vector3_eq; unfold targetY; cbn [x y z]; js; lra |].
  split; [apply collapsed_targetZ |].
  split; [exact Hp |]. split; [exact Hs |]. split; [exact Hq |].
  intros tanF mirrored.
  destruct (collapsed_binary64 tanF mirrored) as (HX & HZ & _ & HQ & _).
  cbv zeta in HX, HZ, HQ. rewrite HX, HZ, HQ. repeat split.
Qed.

(** C5 as stated fails: with the object shown and a scale target of 1.2,
    a collapsed hand at (0.5, 0.5, 0) replaces the scale and rotation
    targets, and the next display frame moves a group that had settled on
    the old targets. *)
Lemma collapsed_hand_moves_pose :
  let s := shownSince (T := R) 0 in
  let r := detectionCycle s (Returns (oneHand (collapsedHand uprightWrist)))
                          (browserAt 10) in
  handScaleRef (fst r) <> handScaleRef s /\
  handRotationRef (fst r) <> handRotationRef s /\
  (exists g1,
      useFrame slerpCopy (Some settledGroup) (handPositionRef (fst r))
               (handScaleRef (fst r)) (handRotationRef (fst r)) = Some g1 /\
      scale g1 <> scale (settledGroup (T := R))).
Proof.
  cbv zeta.
  destruct (collapsed_cycle (shownSince 0) (browserAt 10) uprightWrist)
    as (_ & _ & Hs & Hq).
  cbv zeta in Hs, Hq. rewrite Hs, Hq.
  split; [| split].
  - intro He. apply (f_equal (@x R)) in He.
    cbn [x handScaleRef shownSince someScale] in He. js_in He. lra.
  - intro He. apply (f_equal (@qw R)) in He.
    cbn [qw handRotationRef shownSince someRotation] in He. js_in He.
    assert (Hsq : R_sqrt.sqrt 2 * R_sqrt.sqrt 2 = 2) by (apply sqrt_sqrt; lra).
    nra.
  - eexists. split; [reflexivity |]. cbn [scale settledGroup].
    intro He. apply (f_equal (@x R)) in He.
    unfold lerp in He. cbn [x someScale] in He. js_in He. lra.
Qed.

(** ** Binary64 readings *)

(** The upright hand evaluated on doubles: the scale is the double just
    below 1.2, the fallback is taken and the basis is the identity up to
    the sign of zero. *)
Lemma upright_binary64 (tanF : float -> float) :
  let F := float_number tanF in
  let aspect := @div float F (@num float F 800) (@num float F 800) in
  @targetScale float F uprightWrist uprightMiddle = 1.1999999999999997%float /\
  @handIsVertical float F false aspect uprightWrist uprightMiddle = true /\
  @targetX float F false aspect uprightWrist uprightMiddle
           uprightIndex uprightPinky
    = mkVector3 1%float (-0)%float 0%float /\
  @targetZ float F false aspect uprightWrist uprightMiddle
           uprightIndex uprightPinky
    = mkVector3 (-0)%float 0%float 1%float.
Proof. vm_compute. repeat split. Qed.

(** Mirrored at 0.3 and unmirrored at 0.7 are the same double. *)
Lemma mirror_binary64 (tanF : float -> float) :
  let F := float_number tanF in
  @xCoord3D float F true (@num float F 0.3)
  = @xCoord3D float F false (@num float F 0.7).
Proof. vm_compute. reflexivity. Qed.

(** ** The guards of [predictWebcam] *)

Lemma predictWebcam_runs_cycle (s : Refs R) (v : VideoElement R)
    (d : Outcome (DetectionResult R)) (b : Browser R) :
  videoWidth v <> 0%N -> videoHeight v <> 0%N -> 0 < currentTime v ->
  predictWebcam s (Some v) (Some d) b = (fst (detectionCycle s d b), true).
Proof.
  intros Hw Hh Ht. unfold predictWebcam.
  apply N.eqb_neq in Hw. apply N.eqb_neq in Hh. rewrite Hw, Hh. cbn [orb].
  rewrite lt_R_true by (js; lra). reflexivity.
Qed.

Lemma predictWebcam_skips (s : Refs R) (v : VideoElement R)
    (d : Outcome (DetectionResult R)) (b : Browser R) :
  currentTime v <= 0 -> predictWebcam s (Some v) (Some d) b = (s, true).
Proof.
  intro Ht. unfold predictWebcam.
  destruct ((videoWidth v =? 0)%N || (videoHeight v =? 0)%N); [reflexivity |].
  rewrite lt_R_false by (js; lra). reflexivity.
Qed.

(** * Further properties of the loop *)

(** ** Landmark arrays of any length *)

Lemma nth_error_some_of_length (A : Type) (l : list A) (n : nat) :
  (n < List.length l)%nat -> exists a, nth_error l n = Some a.
Proof.
  intro Hn. destruct (nth_error l n) as [a |] eqn:He.
  - exists a. reflexivity.
  - apply nth_error_None in He. lia.
Qed.

(** X1.  A cycle that sees a hand runs to the end of its [try] block
    exactly when the hand has at least 18 landmarks, whatever their
    values; with fewer, a landmark read throws and the [catch] clause
    ends the cycle. *)
Theorem cycle_completes_iff_full_hand (s : Refs R) (b : Browser R)
    (hand : list (HandLandmark R)) (rest wl : list (list (HandLandmark R))) :
  snd (detectionCycle s (Returns (mkDetectionResult (hand :: rest) wl)) b)
    = Normal
  <-> (18 <= List.length hand)%nat.
Proof.
  cbn [detectionCycle landmarks]. split.
  - intro Hn.
    destruct (nth_error hand 0), (nth_error hand 9); try discriminate Hn.
    destruct (nth_error hand 5); try discriminate Hn.
    destruct (nth_error hand 17) eqn:H17; try discriminate Hn.
    assert (Hlt : (17 < List.length hand)%nat)
      by (apply nth_error_Some; rewrite H17; discriminate).
    lia.
  - intro Hlen.
    destruct (@nth_error_some_of_length _ hand 0) as [w ->]; [lia |].
    destruct (@nth_error_some_of_length _ hand 9) as [m ->]; [lia |].
    destruct (@nth_error_some_of_length _ hand 5) as [i ->]; [lia |].
    destruct (@nth_error_some_of_length _ hand 17) as [p ->]; [lia |].
    reflexivity.
Qed.

(** X2.  With at most nine landmarks the middle knuckle is missing: the
    cycle ends in the [catch] clause with the detection recorded (ref
    flag set, timestamp refreshed) and none of the three targets
    written. *)
Theorem short_hand_keeps_targets (s : Refs R) (b : Browser R)
    (hand : list (HandLandmark R)) (rest wl : list (list (HandLandmark R)))
    (Hshort : (List.length hand <= 9)%nat) :
  let r := detectionCycle s (Returns (mkDetectionResult (hand :: rest) wl)) b in
  snd r = Caught /\
  handPositionRef (fst r) = handPositionRef s /\
  handScaleRef (fst r) = handScaleRef s /\
  handRotationRef (fst r) = handRotationRef s /\
  isHandDetectedRef (fst r) = true /\
  lastDetectionTimeRef (fst r) = performance_now b.
Proof.
  cbv zeta. cbn [detectionCycle landmarks].
  assert (H9 : nth_error hand 9 = None) by (apply nth_error_None; lia).
  rewrite H9.
  assert (Hf : forall o : option (HandLandmark R),
             match o with
             | Some _ => (foundHand s (performance_now b), Caught)
             | None => (foundHand s (performance_now b), Caught)
             end = (foundHand s (performance_now b), Caught))
    by (intros [? |]; reflexivity).
  rewrite Hf. cbn [fst snd]. unfold foundHand. cbn.
  destruct (isHandDetectedRef s); cbn; repeat split.
Qed.

(** X2 at a hand of nine landmarks seen by the fresh component. *)
Lemma short_hand_keeps_targets_witness :
  (List.length (wristOnlyHand (T := R)) <= 9)%nat /\
  handScaleRef
    (fst (detectionCycle initialRefs
            (Returns (mkDetectionResult [wristOnlyHand] [])) (browserAt 5)))
    = handScaleRef (initialRefs (T := R)).
Proof.
  assert (Hlen : (List.length (wristOnlyHand (T := R)) <= 9)%nat)
    by (cbn; lia).
  split; [exact Hlen |].
  apply (@short_hand_keeps_targets initialRefs (browserAt 5) wristOnlyHand
           [] [] Hlen).
Defined.

(** X3.  With ten to seventeen landmarks the wrist and the middle knuckle
    are there and the pinky knuckle is not: the cycle writes the position
    and the scale targets from these two, leaves the rotation target as
    it was, and ends in the [catch] clause. *)
Theorem partial_hand_moves_without_turning (s : Refs R) (b : Browser R)
    (hand : list (HandLandmark R)) (rest wl : list (list (HandLandmark R)))
    (Hlow : (10 <= List.length hand)%nat)
    (Hhigh : (List.length hand <= 17)%nat) :
  let r := detectionCycle s (Returns (mkDetectionResult (hand :: rest) wl)) b in
  let isMirrored :=
    match facingModeRef b with user => true | environment => false end in
  let aspect := innerWidth b / innerHeight b in
  exists wrist middleFingerMCP,
    nth_error hand 0 = Some wrist /\
    nth_error hand 9 = Some middleFingerMCP /\
    snd r = Caught /\
    handPositionRef (fst r)
      = handPosition isMirrored aspect wrist middleFingerMCP /\
    handScaleRef (fst r)
      = mkVector3 (targetScale wrist middleFingerMCP)
                  (targetScale wrist middleFingerMCP)
                  (targetScale wrist middleFingerMCP) /\
    handRotationRef (fst r) = handRotationRef s.
Proof.
  cbv zeta. cbn [detectionCycle landmarks].
  destruct (@nth_error_some_of_length _ hand 0) as [w Hw]; [lia |].
  destruct (@nth_error_some_of_length _ hand 9) as [m Hm]; [lia |].
  assert (H17 : nth_error hand 17 = None) by (apply nth_error_None; lia).
  exists w, m. rewrite Hw, Hm, H17.
  split; [reflexivity | split; [reflexivity |]].
  destruct (nth_error hand 5); cbn [fst snd];
    unfold setPositionAndScale, foundHand; cbn;
    destruct (isHandDetectedRef s); cbn; repeat split.
Qed.

(** X3 at a hand of ten landmarks seen by the fresh component. *)
Lemma partial_hand_moves_without_turning_witness :
  (10 <= List.length (noPinkyHand (T := R)))%nat /\
  (List.length (noPinkyHand (T := R)) <= 17)%nat /\
  exists wrist middleFingerMCP,
    nth_error (noPinkyHand (T := R)) 0 = Some wrist /\
    nth_error (noPinkyHand (T := R)) 9 = Some middleFingerMCP /\
    handRotationRef
      (fst (detectionCycle initialRefs
              (Returns (mkDetectionResult [noPinkyHand] [])) (browserAt 5)))
      = handRotationRef (initialRefs (T := R)).
Proof.
  assert (Hlow : (10 <= List.length (noPinkyHand (T := R)))%nat)
    by (cbn; lia).
  assert (Hhigh : (List.length (noPinkyHand (T := R)) <= 17)%nat)
    by (cbn; lia).
  split; [exact Hlow | split; [exact Hhigh |]].
  destruct (@partial_hand_moves_without_turning initialRefs (browserAt 5)
              noPinkyHand [] [] Hlow Hhigh)
    as (w & m & Hw & Hm & _ & _ & _ & Hr).
  exists w, m. split; [exact Hw | split; [exact Hm | exact Hr]].
Defined.

(** ** Invariants of the targets *)

(** What a cycle can leave in the scale target: what was there, or the
    scale of some wrist and knuckle on all three axes. *)
Lemma detectionCycle_scale (s : Refs R) (d : Outcome (DetectionResult R))
    (b : Browser R) :
  handScaleRef (fst (detectionCycle s d b)) = handScaleRef s \/
  exists wrist middleFingerMCP,
    handScaleRef (fst (detectionCycle s d b))
    = mkVector3 (targetScale wrist middleFingerMCP)
                (targetScale wrist middleFingerMCP)
                (targetScale wrist middleFingerMCP).
Proof.
  destruct d as [result |]; [| left; reflexivity].
  cbn [detectionCycle]. destruct (landmarks result) as [| hand rest].
  - left. cbn [fst]. unfold lostHand.
    destruct (isHandDetectedRef s); [| reflexivity].
    destruct (_ >? _)%js; reflexivity.
  - destruct (nth_error hand 0) as [w |], (nth_error hand 9) as [m |];
      try (left; cbn [fst]; unfold foundHand; cbn;
           destruct (isHandDetectedRef s); reflexivity).
    right. exists w, m.
    destruct (nth_error hand 5), (nth_error hand 17); reflexivity.
Qed.

(** X4.  Along any run of cycles the scale target keeps the same factor
    on its three axes and that factor is never negative, provided it
    started that way (as the component creates it). *)
Theorem scale_target_invariant (s : Refs R)
    (cs : list (Outcome (DetectionResult R) * Browser R))
    (Hiso : isotropic (handScaleRef s)) (Hpos : 0 <= x (handScaleRef s)) :
  isotropic (handScaleRef (runCycles s cs)) /\
  0 <= x (handScaleRef (runCycles s cs)).
Proof.
  revert s Hiso Hpos. induction cs as [| [d b] cs IH]; intros s Hiso Hpos.
  - split; assumption.
  - cbn [runCycles]. apply IH.
    + destruct (detectionCycle_scale s d b) as [-> | (w & m & ->)];
        [exact Hiso | split; reflexivity].
    + destruct (detectionCycle_scale s d b) as [-> | (w & m & ->)];
        [exact Hpos |].
      cbn [x]. rewrite targetScale_R.
      apply Rmult_le_pos; [apply sqrt_pos | lra].
Qed.

(** X4 from the fresh component, over a hand, a miss and a throw. *)
Lemma scale_target_invariant_witness :
  isotropic (handScaleRef (initialRefs (T := R))) /\
  0 <= x (handScaleRef (initialRefs (T := R))) /\
  isotropic
    (handScaleRef
       (runCycles initialRefs
          [(Returns (oneHand uprightHand), browserAt 10);
           (Returns noHand, browserAt 20); (Throws, browserAt 30)])).
Proof.
  assert (Hiso : isotropic (handScaleRef (initialRefs (T := R))))
    by (split; reflexivity).
  assert (Hpos : 0 <= x (handScaleRef (initialRefs (T := R))))
    by (cbn [x handScaleRef initialRefs]; js; lra).
  split; [exact Hiso | split; [exact Hpos |]].
  exact (proj1 (@scale_target_invariant initialRefs
                  [(Returns (oneHand uprightHand), browserAt 10);
                   (Returns noHand, browserAt 20); (Throws, browserAt 30)]
                  Hiso Hpos)).
Defined.

(** ** Runs that never see a hand *)

(** X5.  While the object is hidden, a run of cycles on which the
    detector throws or reports no hand changes none of the cells: the
    object is never shown, and no target or timestamp is written, without
    a detection. *)
Theorem hidden_run_is_untouched (s : Refs R)
    (cs : list (Outcome (DetectionResult R) * Browser R))
    (Hhidden : isHandDetectedRef s = false)
    (Hnone : Forall sawNoHand cs) :
  runCycles s cs = s.
Proof.
  induction Hnone as [| [d b] cs Hc _ IH]; [reflexivity |].
  cbn [runCycles]. unfold sawNoHand in Hc. cbn [fst] in Hc.
  assert (Hstep : fst (detectionCycle s d b) = s).
  { destruct d as [result |]; [| reflexivity].
    cbn [detectionCycle]. rewrite Hc. cbn [fst].
    unfold lostHand. rewrite Hhidden. reflexivity. }
  rewrite Hstep. exact IH.
Qed.

(** X5 at the fresh component, over a miss and a throw. *)
Lemma hidden_run_is_untouched_witness :
  isHandDetectedRef (initialRefs (T := R)) = false /\
  Forall sawNoHand [(Returns (noHand (T := R)), browserAt 100);
                    (Throws, browserAt 200)] /\
  runCycles initialRefs [(Returns noHand, browserAt 100);
                         (Throws, browserAt 200)]
    = initialRefs (T := R).
Proof.
  assert (Hnone : Forall sawNoHand [(Returns (noHand (T := R)), browserAt 100);
                                    (Throws, browserAt 200)]).
  { constructor; [reflexivity |]. constructor; [exact I | constructor]. }
  split; [reflexivity | split; [exact Hnone |]].
  exact (@hidden_run_is_untouched initialRefs _ eq_refl Hnone).
Defined.

(** ** The guards of the loop *)

(** X6.  [predictWebcam] asks for the next animation frame exactly when
    both the video element and the landmarker are there; and it changes a
    cell only when, besides, the video has a nonzero size and a positive
    playback time, in which case the change is that of one detection
    cycle. *)
Theorem predictWebcam_guards (s : Refs R) (video : option (VideoElement R))
    (landmarker : option (Outcome (DetectionResult R))) (b : Browser R) :
  (snd (predictWebcam s video landmarker b) = true <->
   video <> None /\ landmarker <> None) /\
  (fst (predictWebcam s video landmarker b) <> s ->
   exists v detectForVideo,
     video = Some v /\ landmarker = Some detectForVideo /\
     videoWidth v <> 0%N /\ videoHeight v <> 0%N /\ 0 < currentTime v /\
     fst (predictWebcam s video landmarker b)
       = fst (detectionCycle s detectForVideo b)).
Proof.
  unfold predictWebcam.
  destruct video as [v |], landmarker as [d |]; cbn [fst snd].
  2-4: split; [split; [discriminate | intros [Hv Hl]; congruence]
              | intro Hne; congruence].
  destruct (videoWidth v =? 0)%N eqn:Hw; cbn [orb].
  { split; [split; [split; discriminate | reflexivity] | cbn; congruence]. }
  destruct (videoHeight v =? 0)%N eqn:Hh.
  { split; [split; [split; discriminate | reflexivity] | cbn; congruence]. }
  destruct (Rlt_dec 0 (currentTime v)) as [Ht | Ht].
  - assert (Hlt : (currentTime v >? num 0)%js = true)
      by (apply lt_R_true; js; exact Ht).
    rewrite Hlt. cbn [fst snd].
    split; [split; [split; discriminate | reflexivity] |].
    intros _. exists v, d. apply N.eqb_neq in Hw. apply N.eqb_neq in Hh.
    repeat split; assumption.
  - assert (Hlt : (currentTime v >? num 0)%js = false)
      by (apply lt_R_false; js; lra).
    rewrite Hlt. cbn [fst snd].
    split; [split; [split; discriminate | reflexivity] | congruence].
Qed.

(** X6 at the fresh component with a playing video and a hand in view. *)
Lemma predictWebcam_guards_witness :
  fst (predictWebcam initialRefs (Some playingVideo)
         (Some (Returns (oneHand uprightHand))) (browserAt 5))
    <> initialRefs (T := R) /\
  exists v detectForVideo,
    Some (playingVideo (T := R)) = Some v /\
    Some (Returns (oneHand (T := R) uprightHand)) = Some detectForVideo /\
    0 < currentTime v.
Proof.
  assert (Hne : fst (predictWebcam initialRefs (Some playingVideo)
                       (Some (Returns (oneHand uprightHand))) (browserAt 5))
                <> initialRefs (T := R)).
  { rewrite predictWebcam_runs_cycle;
      [| discriminate | discriminate | cbn [currentTime playingVideo]; js; lra].
    cbn [fst]. intro He.
    apply (f_equal (@isHandDetectedRef R)) in He.
    destruct (@detectionCycle_hand_presence initialRefs (browserAt 5)
                (oneHand uprightHand) uprightHand [] eq_refl) as (_ & H2 & _).
    cbv zeta in H2. rewrite H2 in He. discriminate He. }
  split; [exact Hne |].
  destruct (proj2 (predictWebcam_guards initialRefs (Some playingVideo)
                     (Some (Returns (oneHand uprightHand))) (browserAt 5)) Hne)
    as (v & d & Hv & Hd & _ & _ & Ht & _).
  exists v, d. split; [exact Hv | split; [exact Hd | exact Ht]].
Defined.

(** ** Where the position target can lie *)

Lemma viewHeight_positive : 0 < viewHeight (T := R).
Proof.
  unfold viewHeight. js.
  pose proof PI_RGT_0 as Hpi.
  assert (Ht : 0 < Rtrigo1.tan (50 * Rtrigo1.PI / 180 / 2))
    by (apply tan_gt_0; lra).
  lra.
Qed.

(** X7.  For a wrist inside the image and a non-negative aspect ratio the
    position target lies between the left and right edge of the
    reference plane, between its centre line and one full height above
    it (the vertical offset never lets it drop below the centre), at
    depth -10. *)
Theorem position_target_range (isMirrored : bool) (aspect : R)
    (wrist middleFingerMCP : HandLandmark R)
    (Hx : 0 <= px wrist <= 1) (Hy : 0 <= py wrist <= 1)
    (Haspect : 0 <= aspect) :
  let p := handPosition isMirrored aspect wrist middleFingerMCP in
  let height := viewHeight (T := R) in
  let width := height * aspect in
  - (width / 2) <= x p <= width / 2 /\
  0 <= y p <= height /\
  z p = -10.
Proof.
  cbv zeta. pose proof viewHeight_positive as Hh.
  unfold handPosition, xCoord3D. cbn [x y z].
  set (h := viewHeight (T := R)) in *.
  js. rewrite !blend_ratio_zero.
  assert (Hw : 0 <= h * aspect) by nra.
  split; [| split; [| lra]].
  - destruct isMirrored; split; nra.
  - split; nra.
Qed.

(** X7 at the upright hand in a square window. *)
Lemma position_target_range_witness :
  0 <= px (uprightWrist (T := R)) <= 1 /\
  0 <= py (uprightWrist (T := R)) <= 1 /\
  0 <= 1 /\
  0 <= y (handPosition false 1 uprightWrist uprightMiddle)
    <= viewHeight (T := R).
Proof.
  assert (Hx : 0 <= px (uprightWrist (T := R)) <= 1)
    by (cbn [px uprightWrist]; js; lra).
  assert (Hy : 0 <= py (uprightWrist (T := R)) <= 1)
    by (cbn [py uprightWrist]; js; lra).
  assert (Ha : 0 <= 1) by lra.
  split; [exact Hx | split; [exact Hy | split; [exact Ha |]]].
  exact (proj1 (proj2 (@position_target_range false 1 uprightWrist
                         uprightMiddle Hx Hy Ha))).
Defined.

(** ** The palm normal and the basis *)

(** X8.  Whatever the landmarks, the palm normal the loop computes never
    points away from the camera: its [z] is not negative. *)
Theorem palmNormal_faces_camera (isMirrored : bool) (aspect : R)
    (wrist middleFingerMCP indexFingerMCP pinkyFingerMCP : HandLandmark R) :
  0 <= z (palmNormal isMirrored aspect wrist middleFingerMCP
                     indexFingerMCP pinkyFingerMCP).
Proof.
  unfold palmNormal.
  set (n := normalize (crossVectors _ _)).
  destruct (Rlt_dec (z n) 0) as [Hneg | Hpos].
  - rewrite lt_R_true by (js; exact Hneg).
    unfold negate. cbn [z]. js. lra.
  - rewrite lt_R_false by (js; lra). lra.
Qed.

Lemma lengthSq_zero (v : Vector3 R) :
  lengthSq v = 0 -> x v = 0 /\ y v = 0 /\ z v = 0.
Proof.
  rewrite lengthSq_R. intro Hz.
  pose proof (Rle_0_sqr (x v)) as Hx.
  pose proof (Rle_0_sqr (y v)) as Hy.
  pose proof (Rle_0_sqr (z v)) as Hzz.
  unfold Rsqr in *. repeat split; nra.
Qed.

(** X9.  For every hand the basis is a turn about the vertical: the
    forward vector has no vertical part, the right axis is the forward
    vector turned a quarter about [y], and recomputing the forward axis
    from the right axis gives back the forward vector, also when that
    vector is zero. *)
Theorem basis_is_yaw_only (isMirrored : bool) (aspect : R)
    (wrist middleFingerMCP indexFingerMCP pinkyFingerMCP : HandLandmark R) :
  let forward := flatForward isMirrored aspect wrist middleFingerMCP
                             indexFingerMCP pinkyFingerMCP in
  y forward = 0 /\
  targetX isMirrored aspect wrist middleFingerMCP indexFingerMCP pinkyFingerMCP
    = mkVector3 (z forward) 0 (- x forward) /\
  targetZ isMirrored aspect wrist middleFingerMCP indexFingerMCP pinkyFingerMCP
    = forward.
Proof.
  cbv zeta.
  destruct (Req_dec_T
              (lengthSq (forwardCandidate isMirrored aspect wrist
                           middleFingerMCP indexFingerMCP pinkyFingerMCP)) 0)
    as [Hzero | Hnz].
  - apply lengthSq_zero in Hzero. destruct Hzero as (Hx & Hy & Hz).
    assert (Hf : flatForward isMirrored aspect wrist middleFingerMCP
                             indexFingerMCP pinkyFingerMCP = mkVector3 0 0 0)
      by (unfold flatForward; apply normalize_zero; assumption).
    assert (HX : targetX isMirrored aspect wrist middleFingerMCP
                         indexFingerMCP pinkyFingerMCP = mkVector3 0 0 0).
    { unfold targetX. rewrite Hf, crossVectors_zero_r.
      apply normalize_zero; reflexivity. }
    unfold targetZ. rewrite HX, Hf, crossVectors_zero_l. cbn [x y z].
    split; [reflexivity | split].
    + apply vector3_eq; cbn [x y z]; lra.
    + apply normalize_zero; reflexivity.
  - destruct (@basis_of_forward isMirrored aspect wrist middleFingerMCP
                indexFingerMCP pinkyFingerMCP Hnz)
      as (a & b & _ & -> & -> & ->).
    cbn [x y z]. repeat split.
Qed.

(** ** The rotation target *)

(** The quaternion of a basis turned about the vertical by the unit
    vector [(a, 0, b)]. *)
Lemma yaw_quaternion (a b : R) :
  a * a + b * b = 1 ->
  let q := setFromRotationMatrix
             (makeBasis (mkVector3 b 0 (- a)) (targetY (T := R))
                        (mkVector3 a 0 b)) in
  qx q = 0 /\ qz q = 0 /\ quaternionLengthSq q = 1.
Proof.
  intro Hab. cbv zeta.
  unfold setFromRotationMatrix, makeBasis, targetY, quaternionLengthSq.
  cbn [n11 n12 n13 n21 n22 n23 n31 n32 n33 x y z]. js.
  assert (Hb : -1 <= b <= 1) by nra.
  destruct (Rlt_dec 0 (b + 1 + b)) as [Htr | Htr].
  - rewrite lt_R_true by exact Htr. cbn [qx qy qz qw].
    set (r := R_sqrt.sqrt (b + 1 + b + 10 / 10)).
    assert (Hr : 0 < r) by (apply sqrt_lt_R0; lra).
    assert (Hrr : r * r = b + 1 + b + 10 / 10) by (apply sqrt_sqrt; lra).
    split; [lra | split; [lra |]].
    assert (Ha : a * a = (1 - b) * (1 + b)) by nra.
    assert (Hden : r * r = 2 * (1 + b)) by lra.
    replace ((0 - 0) * (5 / 10 / r) * ((0 - 0) * (5 / 10 / r))
             + (a - - a) * (5 / 10 / r) * ((a - - a) * (5 / 10 / r))
             + (0 - 0) * (5 / 10 / r) * ((0 - 0) * (5 / 10 / r))
             + 25 / 100 / (5 / 10 / r) * (25 / 100 / (5 / 10 / r)))
      with (a * a / (r * r) + r * r / 4) by (field; lra).
    rewrite Ha, Hden. field. lra.
  - rewrite lt_R_false by lra.
    rewrite (lt_R_false (a := 1) (b := b)) by lra. cbn [andb].
    rewrite lt_R_true by lra. cbn [qx qy qz qw].
    set (r := R_sqrt.sqrt (10 / 10 + 1 - b - b)).
    assert (Hr : 0 < r) by (apply sqrt_lt_R0; lra).
    assert (Hrr : r * r = 10 / 10 + 1 - b - b) by (apply sqrt_sqrt; lra).
    assert (Ha : a * a = (1 - b) * (1 + b)) by nra.
    assert (Hden : r * r = 2 * (1 - b)) by lra.
    split; [unfold Rdiv; ring | split; [unfold Rdiv; ring |]].
    replace ((0 + 0) / (20 / 10 * r) * ((0 + 0) / (20 / 10 * r))
             + 25 / 100 * (20 / 10 * r) * (25 / 100 * (20 / 10 * r))
             + (0 + 0) / (20 / 10 * r) * ((0 + 0) / (20 / 10 * r))
             + (a - - a) / (20 / 10 * r) * ((a - - a) / (20 / 10 * r)))
      with (r * r / 4 + a * a / (r * r)) by (field; lra).
    rewrite Ha, Hden. field. lra.
Qed.

(** X10.  Under the condition of C4 (projected forward vector at the
    threshold, or a palm normal with a horizontal part) the rotation
    target is a unit quaternion that turns about the vertical axis only:
    its [x] and [z] components are zero. *)
Theorem rotation_target_is_unit_yaw (isMirrored : bool) (aspect : R)
    (wrist middleFingerMCP indexFingerMCP pinkyFingerMCP : HandLandmark R)
    (Hforward :
       0.01 <= lengthSq (projectedForward isMirrored aspect wrist
                                          middleFingerMCP) \/
       (x (palmNormal isMirrored aspect wrist middleFingerMCP
                      indexFingerMCP pinkyFingerMCP) <> 0 \/
        z (palmNormal isMirrored aspect wrist middleFingerMCP
                      indexFingerMCP pinkyFingerMCP) <> 0)) :
  let q := targetQuaternion isMirrored aspect wrist middleFingerMCP
                            indexFingerMCP pinkyFingerMCP in
  qx q = 0 /\ qz q = 0 /\ quaternionLengthSq q = 1.
Proof.
  cbv zeta.
  pose proof (@forwardCandidate_nonzero isMirrored aspect wrist middleFingerMCP
                indexFingerMCP pinkyFingerMCP Hforward) as Hnz.
  destruct (@basis_of_forward isMirrored aspect wrist middleFingerMCP
              indexFingerMCP pinkyFingerMCP Hnz)
    as (a & b & Hab & _ & HX & HZ).
  unfold targetQuaternion, rotationMatrix. rewrite HX, HZ.
  exact (yaw_quaternion Hab).
Qed.

(** X10 at the hand lying sideways. *)
Lemma rotation_target_is_unit_yaw_witness :
  0.01 <= lengthSq (projectedForward (T := R) false 1
                                     sidewaysWrist sidewaysMiddle) /\
  quaternionLengthSq
    (targetQuaternion (T := R) false 1 sidewaysWrist sidewaysMiddle
                      sidewaysIndex sidewaysPinky) = 1.
Proof.
  assert (Hbig : 0.01 <= lengthSq (projectedForward (T := R) false 1
                                     sidewaysWrist sidewaysMiddle)).
  { rewrite lengthSq_R.
    unfold projectedForward, vecToUser, subVectors, getVector.
    cbn [x y z px py pz sidewaysWrist sidewaysMiddle]. js. lra. }
  split; [exact Hbig |].
  exact (proj2 (proj2 (@rotation_target_is_unit_yaw false 1 sidewaysWrist
                         sidewaysMiddle sidewaysIndex sidewaysPinky
                         (or_introl Hbig)))).
Defined.

(** ** The smoothed pose over many frames *)

Lemma lerp_approach (start target cur : Vector3 R) (k alpha : R) :
  cur = approach start target k ->
  lerp cur target alpha = approach start target (k * (1 - alpha)).
Proof.
  intros ->. unfold lerp, approach. cbn [x y z].
  apply vector3_eq; cbn [x y z]; js; ring.
Qed.

Lemma approach_start (start target : Vector3 R) :
  start = approach start target 1.
Proof.
  unfold approach. destruct start as [sx sy sz].
  apply vector3_eq; cbn [x y z]; js; ring.
Qed.

(** X11.  After [n] display frames against fixed targets the smoothed
    position is the target plus the initial offset shrunk by 0.8 to the
    power [n], coordinate by coordinate, and the smoothed scale likewise
    with 0.9: the approach never overshoots and never stalls short of the
    target. *)
Theorem displayFrames_closed_form
    (slerp : Quaternion R -> Quaternion R -> R -> Quaternion R)
    (positionRef scaleRef : Vector3 R) (rotationRef : Quaternion R)
    (n : nat) (g : Group R) :
  exists gn,
    displayFrames slerp n (Some g) positionRef scaleRef rotationRef
      = Some gn /\
    position gn = approach (position g) positionRef (0.8 ^ n) /\
    scale gn = approach (scale g) scaleRef (0.9 ^ n).
Proof.
  assert (Hgen : forall (m : nat) (cur : Group R) (kp ks : R),
             position cur = approach (position g) positionRef kp ->
             scale cur = approach (scale g) scaleRef ks ->
             exists gn,
               displayFrames slerp m (Some cur) positionRef scaleRef rotationRef
                 = Some gn /\
               position gn = approach (position g) positionRef (kp * 0.8 ^ m) /\
               scale gn = approach (scale g) scaleRef (ks * 0.9 ^ m)).
  { induction m as [| m IH]; intros cur kp ks Hp Hs.
    - exists cur. cbn [displayFrames pow]. rewrite !Rmult_1_r. auto.
    - cbn [displayFrames useFrame].
      destruct (IH (mkGroup (lerp (position cur) positionRef (num 0.2))
                            (lerp (scale cur) scaleRef (num 0.1))
                            (slerp (quaternion cur) rotationRef (num 0.15)))
                   (kp * 0.8) (ks * 0.9)) as (gn & Hgn & Hpn & Hsn).
      + cbn [position]. rewrite (lerp_approach _ Hp). f_equal. js. lra.
      + cbn [scale]. rewrite (lerp_approach _ Hs). f_equal. js. lra.
      + exists gn. split; [exact Hgn |]. rewrite Hpn, Hsn. cbn [pow].
        split; f_equal; ring. }
  destruct (Hgen n g 1 1 (approach_start _ _) (approach_start _ _))
    as (gn & Hgn & Hp & Hs).
  exists gn. rewrite Hp, Hs, !Rmult_1_l. auto.
Qed.

(** ** Detection cycles and display frames interleaved *)

Lemma detectionCycle_position (s : Refs R) (d : Outcome (DetectionResult R))
    (b : Browser R) :
  handPositionRef (fst (detectionCycle s d b)) = handPositionRef s \/
  exists isMirrored aspect wrist middleFingerMCP,
    handPositionRef (fst (detectionCycle s d b))
    = handPosition isMirrored aspect wrist middleFingerMCP.
Proof.
  destruct d as [result |]; [| left; reflexivity].
  cbn [detectionCycle]. destruct (landmarks result) as [| hand rest].
  - left. cbn [fst]. unfold lostHand.
    destruct (isHandDetectedRef s); [| reflexivity].
    destruct (_ >? _)%js; reflexivity.
  - destruct (nth_error hand 0) as [w |], (nth_error hand 9) as [m |];
      try (left; cbn [fst]; unfold foundHand; cbn;
           destruct (isHandDetectedRef s); reflexivity).
    right.
    exists (match facingModeRef b with user => true | environment => false end),
           (innerWidth b / innerHeight b), w, m.
    destruct (nth_error hand 5), (nth_error hand 17); reflexivity.
Qed.

(** An invariant of the targets that cycles keep, and one of the group
    that display frames keep under it, hold along every interleaving. *)
Lemma runApp_invariant
    (slerp : Quaternion R -> Quaternion R -> R -> Quaternion R)
    (Target : Refs R -> Prop) (Smoothed : Group R -> Prop) :
  (forall s d b, Target s -> Target (fst (detectionCycle s d b))) ->
  (forall s g, Target s -> Smoothed g ->
     Smoothed (mkGroup (lerp (position g) (handPositionRef s) (num 0.2))
                       (lerp (scale g) (handScaleRef s) (num 0.1))
                       (slerp (quaternion g) (handRotationRef s) (num 0.15)))) ->
  forall ticks s g,
    Target s -> Smoothed g ->
    exists g',
      snd (runApp slerp s (Some g) ticks) = Some g' /\
      Target (fst (runApp slerp s (Some g) ticks)) /\ Smoothed g'.
Proof.
  intros Hcycle Hframe.
  induction ticks as [| [d b |] ticks IH]; intros s g Ht Hg.
  - exists g. cbn. auto.
  - cbn [runApp]. apply IH; [apply Hcycle; exact Ht | exact Hg].
  - cbn [runApp useFrame]. apply IH; [exact Ht | apply Hframe; assumption].
Qed.

(** X12.  However detection cycles and display frames interleave, the
    rendered group keeps one strictly positive scale factor on its three
    axes, provided it and the scale target started that way (as three.js
    and the component create them): the object is never flattened,
    collapsed to a point or mirrored. *)
Theorem rendered_scale_stays_positive
    (slerp : Quaternion R -> Quaternion R -> R -> Quaternion R)
    (s : Refs R) (g : Group R) (ticks : list (Tick R))
    (Htarget : isotropic (handScaleRef s) /\ 0 <= x (handScaleRef s))
    (Hgroup : isotropic (scale g) /\ 0 < x (scale g)) :
  exists g',
    snd (runApp slerp s (Some g) ticks) = Some g' /\
    isotropic (scale g') /\ 0 < x (scale g').
Proof.
  destruct (@runApp_invariant slerp
              (fun s => isotropic (handScaleRef s) /\ 0 <= x (handScaleRef s))
              (fun g => isotropic (scale g) /\ 0 < x (scale g)))
    with (ticks := ticks) (s := s) (g := g) as (g' & Hg' & _ & Hs');
    try assumption.
  - intros s1 d b [Hiso Hpos].
    destruct (detectionCycle_scale s1 d b) as [-> | (w & m & ->)];
      [split; assumption |].
    split; [split; reflexivity |]. cbn [x]. rewrite targetScale_R.
    apply Rmult_le_pos; [apply sqrt_pos | lra].
  - intros s1 g1 [[Hxy Hyz] Hpos] [[Gxy Gyz] Gpos]. cbn [scale].
    unfold isotropic, lerp. cbn [x y z]. js.
    rewrite <- Hyz, <- Hxy, <- Gyz, <- Gxy. repeat split; lra.
  - exists g'. split; [exact Hg' | exact Hs'].
Qed.

(** X12 from the fresh component and a fresh group, over a hand, a frame,
    a collapsed hand and another frame. *)
Lemma rendered_scale_stays_positive_witness :
  (isotropic (handScaleRef (initialRefs (T := R))) /\
   0 <= x (handScaleRef (initialRefs (T := R)))) /\
  (isotropic (scale (freshGroup (T := R))) /\
   0 < x (scale (freshGroup (T := R)))) /\
  exists g',
    snd (runApp slerpCopy initialRefs (Some freshGroup)
           [Detection (Returns (oneHand uprightHand)) (browserAt 10);
            DisplayFrame;
            Detection (Returns (oneHand (collapsedHand uprightWrist)))
                      (browserAt 20);
            DisplayFrame]) = Some g' /\
    0 < x (scale g').
Proof.
  assert (Htarget : isotropic (handScaleRef (initialRefs (T := R))) /\
                    0 <= x (handScaleRef (initialRefs (T := R)))).
  { split; [split; reflexivity |]. cbn [x handScaleRef initialRefs]. js. lra. }
  assert (Hgroup : isotropic (scale (freshGroup (T := R))) /\
                   0 < x (scale (freshGroup (T := R)))).
  { split; [split; reflexivity |]. cbn [x scale freshGroup]. js. lra. }
  split; [exact Htarget | split; [exact Hgroup |]].
  destruct (@rendered_scale_stays_positive slerpCopy initialRefs freshGroup
              [Detection (Returns (oneHand uprightHand)) (browserAt 10);
               DisplayFrame;
               Detection (Returns (oneHand (collapsedHand uprightWrist)))
                         (browserAt 20);
               DisplayFrame] Htarget Hgroup) as (g' & Hg' & _ & Hpos).
  exists g'. split; [exact Hg' | exact Hpos].
Defined.

(** X13.  However detection cycles and display frames interleave, the
    depth of the rendered group stays between -10 and 0 when it and the
    position target started there: the group only ever moves from the
    origin plane toward the fixed depth -10 the loop writes, and never
    past it. *)
Theorem rendered_depth_stays_in_range
    (slerp : Quaternion R -> Quaternion R -> R -> Quaternion R)
    (s : Refs R) (g : Group R) (ticks : list (Tick R))
    (Htarget : -10 <= z (handPositionRef s) <= 0)
    (Hgroup : -10 <= z (position g) <= 0) :
  exists g',
    snd (runApp slerp s (Some g) ticks) = Some g' /\
    -10 <= z (position g') <= 0.
Proof.
  destruct (@runApp_invariant slerp
              (fun s => -10 <= z (handPositionRef s) <= 0)
              (fun g => -10 <= z (position g) <= 0))
    with (ticks := ticks) (s := s) (g := g) as (g' & Hg' & _ & Hz');
    try assumption.
  - intros s1 d b Hz.
    destruct (detectionCycle_position s1 d b)
      as [-> | (mir & asp & w & m & ->)]; [exact Hz |].
    unfold handPosition. cbn [z]. js. lra.
  - intros s1 g1 Hz Gz. cbn [position]. unfold lerp. cbn [z]. js. lra.
  - exists g'. split; [exact Hg' | exact Hz'].
Qed.

(** X13 from the fresh component and a fresh group. *)
Lemma rendered_depth_stays_in_range_witness :
  -10 <= z (handPositionRef (initialRefs (T := R))) <= 0 /\
  -10 <= z (position (freshGroup (T := R))) <= 0 /\
  exists g',
    snd (runApp slerpCopy initialRefs (Some freshGroup)
           [Detection (Returns (oneHand uprightHand)) (browserAt 10);
            DisplayFrame; DisplayFrame]) = Some g' /\
    -10 <= z (position g') <= 0.
Proof.
  assert (Htarget : -10 <= z (handPositionRef (initialRefs (T := R))) <= 0)
    by (cbn [z handPositionRef initialRefs]; js; lra).
  assert (Hgroup : -10 <= z (position (freshGroup (T := R))) <= 0)
    by (cbn [z position freshGroup]; js; lra).
  split; [exact Htarget | split; [exact Hgroup |]].
  exact (@rendered_depth_stays_in_range slerpCopy initialRefs freshGroup
           [Detection (Returns (oneHand uprightHand)) (browserAt 10);
            DisplayFrame; DisplayFrame] Htarget Hgroup).
Defined.

(** * Camera start-up and switching *)

(** X14.  [toggleCamera] leaves the state and the ref on the same mode,
    the other one than the state held, shows the loading status and
    schedules [startCamera] 100 ms later; toggling twice is back on the
    mode the state started with. *)
Theorem toggleCamera_flips (s : Camera.State) :
  let s1 := fst (Camera.toggleCamera s) in
  let s2 := fst (Camera.toggleCamera s1) in
  Camera.facingModeRef s1 = Camera.facingMode s1 /\
  Camera.facingMode s1 <> Camera.facingMode s /\
  Camera.appState s1 = LOADING_MODEL /\
  snd (Camera.toggleCamera s) = 100%Z /\
  Camera.facingMode s2 = Camera.facingMode s /\
  Camera.facingModeRef s2 = Camera.facingMode s.
Proof.
  cbv zeta. unfold Camera.toggleCamera. cbn.
  destruct (Camera.facingMode s); repeat split; discriminate.
Qed.

Lemma startCamera_cases (s : Camera.State)
    (specific : FacingMode -> Camera.Attempt Camera.MediaStream)
    (anyCamera : Camera.Attempt Camera.MediaStream)
    (play : Camera.Attempt unit) :
  let r := Camera.startCamera s specific anyCamera play in
  match Camera.acquired (Camera.facingModeRef s) specific anyCamera with
  | Camera.Rejects msg =>
    Camera.appState r = ERROR /\
    Camera.errorMsg r
      = ("Camera Error: " ++ msg ++ ". Please ensure camera is connected.")%string /\
    Camera.video r
      = match Camera.video s with Some _ => Some None | None => None end
  | Camera.Resolves stream =>
    match Camera.video s with
    | None => Camera.appState r = Camera.appState s /\ Camera.video r = None
    | Some _ =>
      Camera.video r = Some (Some stream) /\
      match play with
      | Camera.Resolves _ =>
        Camera.appState r = Camera.appState s /\
        Camera.errorMsg r = Camera.errorMsg s
      | Camera.Rejects msg =>
        Camera.appState r = ERROR /\
        Camera.errorMsg r
          = ("Camera Error: " ++ msg
             ++ ". Please ensure camera is connected.")%string
      end
    end
  end.
Proof.
  cbv zeta. unfold Camera.startCamera, Camera.acquired.
  destruct (Camera.video s) as [[old |] |] eqn:Hv; cbn;
    destruct (specific (Camera.facingModeRef s)) as [st | m1]; cbn;
    try destruct anyCamera as [st2 | m2]; cbn;
    try rewrite Hv; try destruct play as [[] | mp]; cbn;
    try destruct s; cbn in *; subst; repeat split; reflexivity.
Qed.

(** X15.  [startCamera] ends in the error status exactly when it started
    there, or no stream could be acquired (the wanted camera and then any
    camera were both refused), or a stream was attached to the mounted
    video and [play()] was refused; otherwise it leaves the status as it
    was, so it never shows the running status by itself. *)
Theorem startCamera_error_iff (s : Camera.State)
    (specific : FacingMode -> Camera.Attempt Camera.MediaStream)
    (anyCamera : Camera.Attempt Camera.MediaStream)
    (play : Camera.Attempt unit) :
  let r := Camera.startCamera s specific anyCamera play in
  (Camera.appState r = ERROR <->
   Camera.appState s = ERROR \/
   (exists msg,
       Camera.acquired (Camera.facingModeRef s) specific anyCamera
       = Camera.Rejects msg) \/
   (exists stream msg,
       Camera.acquired (Camera.facingModeRef s) specific anyCamera
       = Camera.Resolves stream /\
       Camera.video s <> None /\ play = Camera.Rejects msg)) /\
  (Camera.appState r = ERROR \/ Camera.appState r = Camera.appState s).
Proof.
  cbv zeta. pose proof (startCamera_cases s specific anyCamera play) as Hc.
  cbv zeta in Hc.
  destruct (Camera.acquired (Camera.facingModeRef s) specific anyCamera)
    as [stream | msg].
  - destruct (Camera.video s) as [src |] eqn:Hv.
    + destruct Hc as [_ Hp]. destruct play as [u | mp].
      * destruct Hp as [Ha _]. rewrite Ha. split; [| right; reflexivity].
        split; [intro He; left; exact He |].
        intros [He | [(m & Hm) | (st & m & _ & _ & Hm)]];
          [exact He | discriminate Hm | discriminate Hm].
      * destruct Hp as [Ha _]. split; [| left; exact Ha].
        split; [| intros _; exact Ha].
        intros _. right. right. exists stream, mp.
        repeat split. discriminate.
    + destruct Hc as [Ha _]. rewrite Ha. split; [| right; reflexivity].
      split; [intro He; left; exact He |].
      intros [He | [(m & Hm) | (st & m & _ & Hne & _)]];
        [exact He | discriminate Hm | congruence].
  - destruct Hc as (Ha & _ & _). split; [| left; exact Ha].
    split; [| intros _; exact Ha].
    intros _. right. left. exists msg. reflexivity.
Qed.

(** X16.  When the video already shows a stream, [startCamera] stops that
    stream's tracks whatever happens next, and if no new stream can be
    acquired the video is left without any source: a failed switch does
    not fall back to the previous camera. *)
Theorem startCamera_releases_previous (s : Camera.State)
    (specific : FacingMode -> Camera.Attempt Camera.MediaStream)
    (anyCamera : Camera.Attempt Camera.MediaStream)
    (play : Camera.Attempt unit) (old : Camera.MediaStream)
    (Hold : Camera.video s = Some (Some old)) :
  let r := Camera.startCamera s specific anyCamera play in
  In old (Camera.stopped r) /\
  (forall msg,
      Camera.acquired (Camera.facingModeRef s) specific anyCamera
      = Camera.Rejects msg ->
      Camera.video r = Some None /\ Camera.appState r = ERROR).
Proof.
  cbv zeta. split.
  - unfold Camera.startCamera. rewrite Hold. cbn.
    destruct (specific (Camera.facingModeRef s)) as [st | m1]; cbn;
      try destruct anyCamera as [st2 | m2]; cbn;
      try destruct play as [[] | mp]; cbn; left; reflexivity.
  - intros msg Hm.
    pose proof (startCamera_cases s specific anyCamera play) as Hc.
    cbv zeta in Hc. rewrite Hm, Hold in Hc.
    destruct Hc as (Ha & _ & Hv). split; assumption.
Qed.

(** X16 when the running component can open no camera at all. *)
Lemma startCamera_releases_previous_witness :
  Camera.video runningCamera = Some (Some 1%nat) /\
  In 1%nat
     (Camera.stopped
        (Camera.startCamera runningCamera
           (fun _ => Camera.Rejects "denied") (Camera.Rejects "denied")
           (Camera.Resolves tt))) /\
  Camera.video
    (Camera.startCamera runningCamera
       (fun _ => Camera.Rejects "denied") (Camera.Rejects "denied")
       (Camera.Resolves tt)) = Some None.
Proof.
  assert (Hold : Camera.video runningCamera = Some (Some 1%nat))
    by reflexivity.
  split; [exact Hold |].
  destruct (@startCamera_releases_previous runningCamera
              (fun _ => Camera.Rejects "denied") (Camera.Rejects "denied")
              (Camera.Resolves tt) 1%nat Hold) as [Hin Hfail].
  split; [exact Hin |].
  exact (proj1 (Hfail "denied"%string eq_refl)).
Defined.

(** X17.  Switching cameras end to end: after [toggleCamera], when
    [startCamera] gets a stream for the other mode and [play()] succeeds,
    the video shows that stream, the previous stream is stopped, state and
    ref are on the other mode, the status is still the loading one, and
    it is the [onplaying] handler that then shows the running status. *)
Theorem camera_switch (s : Camera.State)
    (specific : FacingMode -> Camera.Attempt Camera.MediaStream)
    (anyCamera : Camera.Attempt Camera.MediaStream)
    (old stream : Camera.MediaStream)
    (Hold : Camera.video s = Some (Some old))
    (Hstream :
       specific (match Camera.facingMode s with
                 | user => environment
                 | environment => user
                 end) = Camera.Resolves stream) :
  let r := Camera.startCamera (fst (Camera.toggleCamera s)) specific
                              anyCamera (Camera.Resolves tt) in
  Camera.video r = Some (Some stream) /\
  In old (Camera.stopped r) /\
  Camera.facingMode r <> Camera.facingMode s /\
  Camera.facingModeRef r = Camera.facingMode r /\
  Camera.appState r = LOADING_MODEL /\
  Camera.appState (Camera.onplaying r) = RUNNING /\
  Camera.video (Camera.onplaying r) = Some (Some stream).
Proof.
  cbv zeta. unfold Camera.toggleCamera, Camera.startCamera. cbn.
  rewrite Hold. cbn. rewrite Hstream. cbn.
  destruct (Camera.facingMode s); repeat split;
    (discriminate || (left; reflexivity)).
Qed.

(** X17 from the front camera to the rear one. *)
Lemma camera_switch_witness :
  Camera.video runningCamera = Some (Some 1%nat) /\
  rearOnly environment = Camera.Resolves 2%nat /\
  Camera.video
    (Camera.startCamera (fst (Camera.toggleCamera runningCamera)) rearOnly
                        (Camera.Rejects "denied") (Camera.Resolves tt))
    = Some (Some 2%nat).
Proof.
  assert (Hold : Camera.video runningCamera = Some (Some 1%nat))
    by reflexivity.
  assert (Hstream : rearOnly (match Camera.facingMode runningCamera with
                              | user => environment
                              | environment => user
                              end) = Camera.Resolves 2%nat) by reflexivity.
  split; [exact Hold | split; [exact Hstream |]].
  exact (proj1 (@camera_switch runningCamera rearOnly
                  (Camera.Rejects "denied") 1%nat 2%nat Hold Hstream)).
Defined.

(** X18.  Start-up: when loading the model fails, the component shows the
    error status with the model message, the landmarker stays unset and
    the camera effect requests no camera, whatever the camera would have
    answered; when loading succeeds the landmarker is set and the camera
    effect does run [startCamera]. *)
Theorem startup_gates_camera (s : Camera.State)
    (specific : FacingMode -> Camera.Attempt Camera.MediaStream)
    (anyCamera : Camera.Attempt Camera.MediaStream)
    (play : Camera.Attempt unit) (msg : string) :
  let failed := Camera.initMediapipe s (Camera.Rejects msg) in
  let loaded := Camera.initMediapipe s (Camera.Resolves tt) in
  Camera.cameraEffect failed specific anyCamera play = failed /\
  Camera.appState failed = ERROR /\
  Camera.errorMsg failed = "Failed to load AI models. Please refresh."%string /\
  Camera.landmarker failed = Camera.landmarker s /\
  Camera.video failed = Camera.video s /\
  Camera.stopped failed = Camera.stopped s /\
  Camera.landmarker loaded = true /\
  Camera.cameraEffect loaded specific anyCamera play
    = Camera.startCamera loaded specific anyCamera play.
Proof. cbv zeta. repeat split. Qed.

(** * The custom model *)

(** X19.  Choosing a file and then clearing it is a round trip: the
    component is back without a custom model, the hidden input is reset
    when it is mounted, the blob URL created for the file is revoked and
    the other live URLs are as before, so the canvas mounts the built-in
    model again. *)
Theorem upload_then_clear (s : Upload.State) (file : Upload.File)
    (files : list Upload.File) (url : string)
    (Hurl : url <> EmptyString) (Hfresh : ~ In url (Upload.objectUrls s)) :
  let cleared :=
    Upload.handleClearModel (Upload.handleFileChange s (file :: files) url) in
  Upload.customModelUrl cleared = None /\
  Upload.customModelName cleared = None /\
  Upload.fileInput cleared
    = match Upload.fileInput s with
      | Some _ => Some EmptyString
      | None => None
      end /\
  Upload.objectUrls cleared = Upload.objectUrls s /\
  Upload.sceneChild
    (Upload.customModelUrl (Upload.handleFileChange s (file :: files) url))
    = Upload.UserModel url /\
  Upload.sceneChild (Upload.customModelUrl cleared) = Upload.CyberpunkRabbit.
Proof.
  cbv zeta. unfold Upload.handleClearModel, Upload.handleFileChange.
  cbn [Upload.customModelUrl Upload.sceneChild].
  apply String.eqb_neq in Hurl. rewrite Hurl.
  cbn [Upload.customModelUrl Upload.customModelName Upload.fileInput
       Upload.objectUrls Upload.sceneChild remove].
  destruct (string_dec url url) as [_ | Hne]; [| contradiction].
  rewrite notin_remove by exact Hfresh. repeat split.
Qed.

(** X19 for one file chosen in the component without a model. *)
Lemma upload_then_clear_witness :
  "blob:1"%string <> EmptyString /\
  ~ In "blob:1"%string (Upload.objectUrls noModel) /\
  Upload.objectUrls
    (Upload.handleClearModel
       (Upload.handleFileChange noModel [Upload.mkFile "cat.glb"] "blob:1"))
    = Upload.objectUrls noModel.
Proof.
  assert (Hurl : "blob:1"%string <> EmptyString) by discriminate.
  assert (Hfresh : ~ In "blob:1"%string (Upload.objectUrls noModel))
    by (intros []).
  split; [exact Hurl | split; [exact Hfresh |]].
  exact (proj1 (proj2 (proj2 (proj2
           (@upload_then_clear noModel (Upload.mkFile "cat.glb") []
              "blob:1" Hurl Hfresh))))).
Defined.

(** X20.  Choosing a second file without clearing first replaces the
    model but never revokes the first blob URL: it is still live after
    the second choice and even after clearing, when the component no
    longer refers to it. *)
Theorem replaced_upload_stays_live (s : Upload.State)
    (file1 file2 : Upload.File) (files1 files2 : list Upload.File)
    (url1 url2 : string) (Hdiff : url1 <> url2) :
  let replaced :=
    Upload.handleFileChange
      (Upload.handleFileChange s (file1 :: files1) url1)
      (file2 :: files2) url2 in
  Upload.customModelUrl replaced = Some url2 /\
  Upload.customModelName replaced = Some (Upload.name file2) /\
  In url1 (Upload.objectUrls replaced) /\
  In url1 (Upload.objectUrls (Upload.handleClearModel replaced)) /\
  Upload.customModelUrl (Upload.handleClearModel replaced) <> Some url1.
Proof.
  cbv zeta. unfold Upload.handleFileChange.
  cbn [Upload.customModelUrl Upload.customModelName Upload.objectUrls].
  split; [reflexivity | split; [reflexivity | split]].
  { right. left. reflexivity. }
  unfold Upload.handleClearModel. cbn [Upload.customModelUrl].
  destruct (url2 =? EmptyString)%string;
    cbn [Upload.customModelUrl Upload.objectUrls].
  - split; [right; left; reflexivity | congruence].
  - split; [| discriminate].
    apply in_in_remove; [exact Hdiff | right; left; reflexivity].
Qed.

(** X20 for two files chosen in a row. *)
Lemma replaced_upload_stays_live_witness :
  "blob:1"%string <> "blob:2"%string /\
  In "blob:1"%string
     (Upload.objectUrls
        (Upload.handleClearModel
           (Upload.handleFileChange
              (Upload.handleFileChange noModel [Upload.mkFile "cat.glb"]
                                       "blob:1")
              [Upload.mkFile "dog.glb"] "blob:2"))).
Proof.
  assert (Hdiff : "blob:1"%string <> "blob:2"%string) by discriminate.
  split; [exact Hdiff |].
  exact (proj1 (proj2 (proj2 (proj2
           (@replaced_upload_stays_live noModel (Upload.mkFile "cat.glb")
              (Upload.mkFile "dog.glb") [] [] "blob:1" "blob:2" Hdiff))))).
Defined.

(** X21.  Clearing is idempotent, creates no URL, and always leaves the
    canvas on the built-in model; a change event without a file changes
    nothing. *)
Theorem clear_model_settles (s : Upload.State) (url : string) :
  Upload.handleClearModel (Upload.handleClearModel s)
    = Upload.handleClearModel s /\
  incl (Upload.objectUrls (Upload.handleClearModel s)) (Upload.objectUrls s) /\
  Upload.sceneChild (Upload.customModelUrl (Upload.handleClearModel s))
    = Upload.CyberpunkRabbit /\
  Upload.handleFileChange s [] url = s.
Proof.
  unfold Upload.handleClearModel.
  destruct (Upload.customModelUrl s) as [u |] eqn:Hu.
  - destruct (u =? EmptyString)%string eqn:He.
    + rewrite Hu, He. repeat split.
      * apply incl_refl.
      * cbn [Upload.sceneChild]. rewrite He. reflexivity.
    + cbn [Upload.customModelUrl Upload.objectUrls Upload.sceneChild].
      repeat split.
      intros a Ha. apply in_remove in Ha. exact (proj1 Ha).
  - rewrite Hu. repeat split. apply incl_refl.
Qed.

(** * The built-in model *)

(** X22.  The idle animation keeps the built-in model's group between
    0.2 and 0.3 above the tracked anchor at every time: it bobs by at
    most 0.05 around 0.25 and never sinks to the anchor. *)
Theorem rabbit_bobs_within_bounds (elapsedTime : R) :
  0.2 <= rabbitHeight Rtrigo_def.sin elapsedTime <= 0.3 /\
  Rabs (rabbitHeight Rtrigo_def.sin elapsedTime - 0.25) <= 0.05.
Proof.
  unfold rabbitHeight. js.
  pose proof (SIN_bound (elapsedTime * 1)) as [Hlo Hhi].
  split; [split; lra |].
  apply Rabs_le. lra.
Qed.

(** * How the targets follow the hand *)

(** X23.  The scale target measures the apparent size of the hand and
    nothing else: moving the whole hand in the image (or in depth) leaves
    it unchanged, and a hand that appears [k] times as large about its
    wrist gets [k] times the scale. *)
Theorem scale_follows_hand_size (wrist middleFingerMCP d : HandLandmark R)
    (k : R) (Hk : 0 <= k) :
  targetScale (translate d wrist) (translate d middleFingerMCP)
    = targetScale wrist middleFingerMCP /\
  targetScale wrist (zoom k wrist middleFingerMCP)
    = k * targetScale wrist middleFingerMCP.
Proof.
  rewrite !targetScale_R. cbn [px py translate zoom]. js. split.
  - f_equal. f_equal. ring.
  - set (dx := px wrist - px middleFingerMCP).
    set (dy := py wrist - py middleFingerMCP).
    replace ((px wrist - (px wrist + k * (px middleFingerMCP - px wrist)))
             * (px wrist - (px wrist + k * (px middleFingerMCP - px wrist)))
             + (py wrist - (py wrist + k * (py middleFingerMCP - py wrist)))
               * (py wrist - (py wrist + k * (py middleFingerMCP - py wrist))))
      with (k * k * (dx * dx + dy * dy)) by (subst dx dy; ring).
    rewrite sqrt_mult_alt by nra.
    rewrite sqrt_square by exact Hk. ring.
Qed.

(** X23 at the upright hand seen twice as large. *)
Lemma scale_follows_hand_size_witness :
  0 <= 2 /\
  targetScale (T := R) uprightWrist (zoom 2 uprightWrist uprightMiddle)
    = 2 * targetScale uprightWrist uprightMiddle.
Proof.
  assert (Hk : 0 <= 2) by lra.
  split; [exact Hk |].
  exact (proj2 (@scale_follows_hand_size uprightWrist uprightMiddle
                  uprightWrist 2 Hk)).
Defined.

Lemma getVector_difference_translate (isMirrored : bool) (aspect : R)
    (d p q : HandLandmark R) :
  subVectors (getVector isMirrored aspect (translate d p))
             (getVector isMirrored aspect (translate d q))
  = subVectors (getVector isMirrored aspect p) (getVector isMirrored aspect q).
Proof.
  unfold subVectors, getVector, translate. cbn [x y z px py pz].
  apply vector3_eq; cbn [x y z]; destruct isMirrored; js; ring.
Qed.

(** X24.  The rotation target depends on the shape of the hand only:
    moving wrist and knuckles together, in the image or in depth, in
    either camera mode, leaves the basis and the quaternion as they
    were. *)
Theorem orientation_ignores_hand_position (isMirrored : bool) (aspect : R)
    (wrist middleFingerMCP indexFingerMCP pinkyFingerMCP d : HandLandmark R) :
  targetX isMirrored aspect (translate d wrist) (translate d middleFingerMCP)
          (translate d indexFingerMCP) (translate d pinkyFingerMCP)
    = targetX isMirrored aspect wrist middleFingerMCP
              indexFingerMCP pinkyFingerMCP /\
  targetZ isMirrored aspect (translate d wrist) (translate d middleFingerMCP)
          (translate d indexFingerMCP) (translate d pinkyFingerMCP)
    = targetZ isMirrored aspect wrist middleFingerMCP
              indexFingerMCP pinkyFingerMCP /\
  targetQuaternion isMirrored aspect (translate d wrist)
                   (translate d middleFingerMCP)
                   (translate d indexFingerMCP) (translate d pinkyFingerMCP)
    = targetQuaternion isMirrored aspect wrist middleFingerMCP
                       indexFingerMCP pinkyFingerMCP.
Proof.
  assert (HX : targetX isMirrored aspect (translate d wrist)
                 (translate d middleFingerMCP)
                 (translate d indexFingerMCP) (translate d pinkyFingerMCP)
               = targetX isMirrored aspect wrist middleFingerMCP
                         indexFingerMCP pinkyFingerMCP).
  { unfold targetX, flatForward, forwardCandidate, handIsVertical,
      projectedForward, palmNormal, palmAcross, fingerDir, vecToUser.
    rewrite !getVector_difference_translate. reflexivity. }
  assert (HZ : targetZ isMirrored aspect (translate d wrist)
                 (translate d middleFingerMCP)
                 (translate d indexFingerMCP) (translate d pinkyFingerMCP)
               = targetZ isMirrored aspect wrist middleFingerMCP
                         indexFingerMCP pinkyFingerMCP)
    by (unfold targetZ; rewrite HX; reflexivity).
  split; [exact HX | split; [exact HZ |]].
  unfold targetQuaternion, rotationMatrix. rewrite HX, HZ. reflexivity.
Qed.

(** * The smoothed orientation *)

Lemma lessEq_R_true (a b : R) : a <= b -> lessEq a b = true.
Proof. intro Hab. cbn. destruct (Rle_dec a b); [reflexivity | contradiction]. Qed.

Lemma lessEq_R_false (a b : R) : b < a -> lessEq a b = false.
Proof. intro Hab. cbn. destruct (Rle_dec a b); [lra | reflexivity]. Qed.

Lemma strictEquals_R_false (a b : R) : a <> b -> strictEquals a b = false.
Proof.
  intro Hab. cbn. destruct (Req_dec_T a b); [contradiction | reflexivity].
Qed.

Lemma epsilon_positive : 0 < Number_EPSILON (T := R).
Proof.
  change (Number_EPSILON (T := R)) with (/ 2 ^ 52).
  apply Rinv_0_lt_compat. apply pow_lt. lra.
Qed.

Lemma epsilon_small : Number_EPSILON (T := R) < 1 / 2.
Proof.
  change (Number_EPSILON (T := R)) with (/ 2 ^ 52).
  assert (H2 : 2 < 2 ^ 52).
  { change (2 ^ 52) with (2 * 2 ^ 51).
    assert (H1 : 1 < 2 ^ 51) by (apply Rlt_pow_R1; [lra | lia]). lra. }
  assert (Hp : 0 < 2 ^ 52) by lra.
  apply Rmult_lt_reg_r with (2 ^ 52); [exact Hp |].
  rewrite Rinv_l by lra. lra.
Qed.

(** ** The angle behind the sine weights *)

(** For a point of the unit circle in the closed first quadrant, off the
    [x] axis, [atan2] is its angle. *)
Lemma atan2R_unit (s c : R) :
  0 < s -> 0 <= c -> c * c + s * s = 1 ->
  0 < atan2R s c <= Rtrigo1.PI / 2 /\
  Rtrigo_def.sin (atan2R s c) = s /\ Rtrigo_def.cos (atan2R s c) = c.
Proof.
  intros Hs Hc Hunit. pose proof PI_RGT_0 as Hpi. unfold atan2R.
  destruct (Rlt_dec 0 c) as [Hpos | Hzero].
  - set (u := s / c).
    assert (Hu : 0 < u) by (apply Rdiv_lt_0_compat; assumption).
    pose proof (atan_bound u) as [_ Hub].
    pose proof (atan_increasing 0 u Hu) as Hinc. rewrite atan_0 in Hinc.
    assert (Hroot : R_sqrt.sqrt (1 + u²) = 1 / c).
    { replace (1 + u²) with ((1 / c) * (1 / c)).
      - apply sqrt_square. apply Rlt_le. apply Rdiv_lt_0_compat; lra.
      - unfold u, Rsqr. field_simplify; [| lra | lra].
        replace (c ^ 2 + s ^ 2) with (c * c + s * s) by ring.
        rewrite Hunit. field. lra. }
    split; [split; lra | split].
    + rewrite sin_atan, Hroot. unfold u. field. lra.
    + rewrite cos_atan, Hroot. field. lra.
  - assert (Hc0 : c = 0) by lra. subst c.
    destruct (Rlt_dec 0 0) as [Habs | _]; [lra |].
    destruct (Rlt_dec 0 s) as [_ | Habs]; [| contradiction].
    assert (Hs1 : s = 1) by nra. subst s.
    split; [split; lra | split; [apply sin_PI2 | apply cos_PI2]].
Qed.

(** ** Cosine over an eighth *)

Lemma cos_midpoint (a b : R) :
  0 <= a <= Rtrigo1.PI / 2 -> 0 <= b <= Rtrigo1.PI / 2 ->
  (Rtrigo_def.cos a + Rtrigo_def.cos b) / 2 <= Rtrigo_def.cos ((a + b) / 2).
Proof.
  intros Ha Hb. rewrite form1.
  pose proof (COS_bound ((a - b) / 2)) as [_ Hle].
  assert (Hge : 0 <= Rtrigo_def.cos ((a + b) / 2)) by (apply cos_ge_0; lra).
  nra.
Qed.

Lemma cos_seven_eighths (h : R) :
  0 <= h <= Rtrigo1.PI / 2 ->
  (7 * Rtrigo_def.cos h + 1) / 8 <= Rtrigo_def.cos (7 * h / 8).
Proof.
  intro Hh.
  assert (H1 : (Rtrigo_def.cos h + Rtrigo_def.cos 0) / 2
               <= Rtrigo_def.cos ((h + 0) / 2))
    by (apply cos_midpoint; lra).
  assert (H2 : (Rtrigo_def.cos ((h + 0) / 2) + Rtrigo_def.cos h) / 2
               <= Rtrigo_def.cos (((h + 0) / 2 + h) / 2))
    by (apply cos_midpoint; lra).
  assert (H3 : (Rtrigo_def.cos (((h + 0) / 2 + h) / 2) + Rtrigo_def.cos h) / 2
               <= Rtrigo_def.cos ((((h + 0) / 2 + h) / 2 + h) / 2))
    by (apply cos_midpoint; lra).
  rewrite cos_0 in H1.
  replace ((((h + 0) / 2 + h) / 2 + h) / 2) with (7 * h / 8) in H3 by field.
  lra.
Qed.

Lemma cos_blend_step (h : R) :
  0 <= h <= Rtrigo1.PI / 2 ->
  1 - Rtrigo_def.cos ((1 - 15 / 100) * h)
  <= 7 / 8 * (1 - Rtrigo_def.cos h).
Proof.
  intro Hh. pose proof PI_RGT_0 as Hpi.
  pose proof (cos_seven_eighths Hh) as H78.
  assert (Hdecr : Rtrigo_def.cos (7 * h / 8)
                  <= Rtrigo_def.cos ((1 - 15 / 100) * h))
    by (apply cos_decr_1; lra).
  lra.
Qed.

(** ** The branches of [slerp] at the blend factor 0.15 *)

Ltac slerp_open :=
  unfold Quaternion_slerp;
  rewrite (@strictEquals_R_false (num 0.15) (num 0)) by (js; lra);
  rewrite (@strictEquals_R_false (num 0.15) (num 1)) by (js; lra);
  cbv zeta; js.

Lemma slerp_cosine (q r : Quaternion R) :
  qw q * qw r + qx q * qx r + qy q * qy r + qz q * qz r = quaternionDot q r.
Proof. unfold quaternionDot. js. ring. Qed.

(** A cosine of at least one: nothing moves. *)
Lemma slerp_held (q r : Quaternion R) :
  1 <= quaternionDot q r -> Quaternion_slerp q r (num 0.15) = q.
Proof.
  intro Hc. slerp_open. rewrite slerp_cosine.
  rewrite lt_R_false by lra. rewrite lessEq_R_true by lra. reflexivity.
Qed.

(** A very small angle: linear blend, then normalised. *)
Lemma slerp_linear (q r : Quaternion R) :
  0 <= quaternionDot q r < 1 ->
  1 - quaternionDot q r * quaternionDot q r <= Number_EPSILON ->
  Quaternion_slerp q r (num 0.15)
  = quaternionNormalize
      (mkQuaternion ((1 - 15 / 100) * qx q + 15 / 100 * qx r)
                    ((1 - 15 / 100) * qy q + 15 / 100 * qy r)
                    ((1 - 15 / 100) * qz q + 15 / 100 * qz r)
                    ((1 - 15 / 100) * qw q + 15 / 100 * qw r)).
Proof.
  intros Hc Hsmall. slerp_open. rewrite slerp_cosine.
  rewrite lt_R_false by lra. rewrite lessEq_R_false by lra.
  replace (10 / 10) with 1 by lra.
  rewrite lessEq_R_true by exact Hsmall. reflexivity.
Qed.

(** Otherwise: weights from the sines of parts of the half angle. *)
Lemma slerp_arc (q r : Quaternion R) :
  0 <= quaternionDot q r < 1 ->
  Number_EPSILON < 1 - quaternionDot q r * quaternionDot q r ->
  let c := quaternionDot q r in
  let sh := R_sqrt.sqrt (1 - c * c) in
  let h := atan2R sh c in
  let A := Rtrigo_def.sin ((1 - 15 / 100) * h) / sh in
  let B := Rtrigo_def.sin (15 / 100 * h) / sh in
  Quaternion_slerp q r (num 0.15)
  = mkQuaternion (qx q * A + qx r * B) (qy q * A + qy r * B)
                 (qz q * A + qz r * B) (qw q * A + qw r * B).
Proof.
  intros Hc Hbig. cbv zeta. slerp_open. rewrite slerp_cosine.
  rewrite lt_R_false by lra. rewrite lessEq_R_false by lra.
  replace (10 / 10) with 1 by lra.
  rewrite lessEq_R_false by exact Hbig. reflexivity.
Qed.

(** A target in the other hemisphere is replaced by its negation. *)
Lemma slerp_other (q r : Quaternion R) :
  quaternionDot q r < 0 ->
  Quaternion_slerp q r (num 0.15)
  = Quaternion_slerp q (quaternionNegate r) (num 0.15).
Proof.
  intro Hneg. unfold Quaternion_slerp at 1 2.
  rewrite (@strictEquals_R_false (num 0.15) (num 0)) by (js; lra).
  rewrite (@strictEquals_R_false (num 0.15) (num 1)) by (js; lra).
  cbv zeta. unfold quaternionNegate. cbn [qx qy qz qw]. js.
  replace (qw q * - qw r + qx q * - qx r + qy q * - qy r + qz q * - qz r)
    with (- (qw q * qw r + qx q * qx r + qy q * qy r + qz q * qz r)) by ring.
  rewrite slerp_cosine.
  rewrite (lt_R_true (a := quaternionDot q r)) by lra.
  rewrite (lt_R_false (a := - quaternionDot q r)) by lra.
  reflexivity.
Qed.

(** ** One step toward a unit target *)

Lemma quaternionLengthSq_R (q : Quaternion R) :
  quaternionLengthSq q = qx q * qx q + qy q * qy q + qz q * qz q + qw q * qw q.
Proof. reflexivity. Qed.

Lemma quaternionDot_R (a b : Quaternion R) :
  quaternionDot a b = qx a * qx b + qy a * qy b + qz a * qz b + qw a * qw b.
Proof. reflexivity. Qed.

(** Twice one minus the cosine is the squared distance of two unit
    quaternions. *)
Lemma unit_distance (q r : Quaternion R) :
  quaternionLengthSq q = 1 -> quaternionLengthSq r = 1 ->
  (qx q - qx r) * (qx q - qx r) + (qy q - qy r) * (qy q - qy r)
  + (qz q - qz r) * (qz q - qz r) + (qw q - qw r) * (qw q - qw r)
  = 2 * (1 - quaternionDot q r).
Proof.
  rewrite !quaternionLengthSq_R, quaternionDot_R. intros Hq Hr. nra.
Qed.

Lemma unit_dot_le_1 (q r : Quaternion R) :
  quaternionLengthSq q = 1 -> quaternionLengthSq r = 1 ->
  quaternionDot q r <= 1.
Proof.
  intros Hq Hr. pose proof (unit_distance Hq Hr) as Hd.
  pose proof (Rle_0_sqr (qx q - qx r)) as H1.
  pose proof (Rle_0_sqr (qy q - qy r)) as H2.
  pose proof (Rle_0_sqr (qz q - qz r)) as H3.
  pose proof (Rle_0_sqr (qw q - qw r)) as H4.
  unfold Rsqr in *. lra.
Qed.

Lemma slerp_step_linear (q r : Quaternion R) :
  quaternionLengthSq q = 1 -> quaternionLengthSq r = 1 ->
  0 <= quaternionDot q r <= 1 ->
  let q' := quaternionNormalize
              (mkQuaternion ((1 - 15 / 100) * qx q + 15 / 100 * qx r)
                            ((1 - 15 / 100) * qy q + 15 / 100 * qy r)
                            ((1 - 15 / 100) * qz q + 15 / 100 * qz r)
                            ((1 - 15 / 100) * qw q + 15 / 100 * qw r)) in
  quaternionLengthSq q' = 1 /\
  1 - quaternionDot q' r <= 7 / 8 * (1 - quaternionDot q r).
Proof.
  intros Hq Hr Hc. cbv zeta.
  set (m := mkQuaternion _ _ _ _).
  set (c := quaternionDot q r) in *.
  assert (HM : quaternionLengthSq m = 745 / 1000 + 255 / 1000 * c).
  { subst m c. rewrite quaternionLengthSq_R in *. rewrite quaternionDot_R.
    cbn [qx qy qz qw]. nra. }
  assert (Hdot : quaternionDot m r = (1 - 15 / 100) * c + 15 / 100).
  { subst m c. rewrite quaternionLengthSq_R in *. rewrite !quaternionDot_R.
    cbn [qx qy qz qw]. nra. }
  assert (HMpos : 0 < quaternionLengthSq m) by lra.
  assert (HMle : quaternionLengthSq m <= 1) by lra.
  set (l := R_sqrt.sqrt (quaternionLengthSq m)).
  assert (Hl : 0 < l) by (apply sqrt_lt_R0; exact HMpos).
  assert (Hll : l * l = quaternionLengthSq m)
    by (apply sqrt_sqrt; lra).
  assert (Hl1 : l <= 1).
  { rewrite <- sqrt_1. apply sqrt_le_1; lra. }
  unfold quaternionNormalize, quaternionLength.
  change (Math_sqrt (qx m * qx m + qy m * qy m + qz m * qz m + qw m * qw m)%js)
    with l.
  rewrite strictEquals_R_false by (js; lra).
  cbv zeta. js.
  rewrite quaternionLengthSq_R, quaternionDot_R. cbn [qx qy qz qw].
  rewrite quaternionLengthSq_R in Hll. rewrite quaternionDot_R in Hdot.
  set (k := 1 / l).
  assert (Hk : k * l = 1) by (unfold k; field; lra).
  assert (Hk1 : 1 <= k).
  { assert (Hkpos : 0 < k) by (unfold k; apply Rdiv_lt_0_compat; lra). nra. }
  split.
  - replace (qx m * k * (qx m * k) + qy m * k * (qy m * k)
             + qz m * k * (qz m * k) + qw m * k * (qw m * k))
      with (k * k * (qx m * qx m + qy m * qy m + qz m * qz m + qw m * qw m))
      by ring.
    rewrite <- Hll. nra.
  - replace (qx m * k * qx r + qy m * k * qy r + qz m * k * qz r
             + qw m * k * qw r)
      with (k * (qx m * qx r + qy m * qy r + qz m * qz r + qw m * qw r))
      by ring.
    rewrite Hdot. nra.
Qed.

Lemma slerp_step_arc (q r : Quaternion R) :
  quaternionLengthSq q = 1 -> quaternionLengthSq r = 1 ->
  0 <= quaternionDot q r < 1 ->
  let c := quaternionDot q r in
  let sh := R_sqrt.sqrt (1 - c * c) in
  let h := atan2R sh c in
  let A := Rtrigo_def.sin ((1 - 15 / 100) * h) / sh in
  let B := Rtrigo_def.sin (15 / 100 * h) / sh in
  let q' := mkQuaternion (qx q * A + qx r * B) (qy q * A + qy r * B)
                         (qz q * A + qz r * B) (qw q * A + qw r * B) in
  quaternionLengthSq q' = 1 /\
  1 - quaternionDot q' r <= 7 / 8 * (1 - quaternionDot q r).
Proof.
  intros Hq Hr Hc. cbv zeta.
  set (c := quaternionDot q r) in *.
  set (sh := R_sqrt.sqrt (1 - c * c)).
  assert (Hpos : 0 < 1 - c * c) by nra.
  assert (Hsh : 0 < sh) by (apply sqrt_lt_R0; exact Hpos).
  assert (Hshsh : sh * sh = 1 - c * c) by (apply sqrt_sqrt; lra).
  destruct (@atan2R_unit sh c Hsh (proj1 Hc)) as (Hrange & Hsin & Hcos);
    [lra |].
  set (h := atan2R sh c) in *.
  set (a := (1 - 15 / 100) * h). set (b := 15 / 100 * h).
  pose proof (sin2_cos2 a) as Ha. pose proof (sin2_cos2 b) as Hb.
  unfold Rsqr in Ha, Hb.
  assert (Hab : h = a + b) by (unfold a, b; lra).
  assert (Hs : sh = Rtrigo_def.sin a * Rtrigo_def.cos b
                    + Rtrigo_def.cos a * Rtrigo_def.sin b)
    by (rewrite <- Hsin, Hab; apply sin_plus).
  assert (Hcc : c = Rtrigo_def.cos a * Rtrigo_def.cos b
                    - Rtrigo_def.sin a * Rtrigo_def.sin b)
    by (rewrite <- Hcos, Hab; apply cos_plus).
  set (sa := Rtrigo_def.sin a) in *. set (ca := Rtrigo_def.cos a) in *.
  set (sb := Rtrigo_def.sin b) in *. set (cb := Rtrigo_def.cos b) in *.
  assert (Hca : ca * ca = 1 - sa * sa) by lra.
  assert (Hcb : cb * cb = 1 - sb * sb) by lra.
  assert (Hnum1 : sa * sa + 2 * sa * sb * c + sb * sb = sh * sh).
  { rewrite Hs, Hcc.
    replace ((sa * cb + ca * sb) * (sa * cb + ca * sb))
      with (sa * sa * (cb * cb) + 2 * sa * sb * ca * cb
            + ca * ca * (sb * sb)) by ring.
    rewrite Hca, Hcb. ring. }
  assert (Hnum2 : sa * c + sb = ca * sh).
  { rewrite Hs, Hcc.
    replace (sa * (ca * cb - sa * sb) + sb)
      with (sa * ca * cb + sb * (1 - sa * sa)) by ring.
    rewrite <- Hca. ring. }
  rewrite quaternionLengthSq_R, quaternionDot_R. cbn [qx qy qz qw].
  rewrite quaternionLengthSq_R in Hq, Hr.
  assert (Hcdef : qx q * qx r + qy q * qy r + qz q * qz r + qw q * qw r = c)
    by reflexivity.
  split.
  - replace ((qx q * (sa / sh) + qx r * (sb / sh))
             * (qx q * (sa / sh) + qx r * (sb / sh))
             + (qy q * (sa / sh) + qy r * (sb / sh))
               * (qy q * (sa / sh) + qy r * (sb / sh))
             + (qz q * (sa / sh) + qz r * (sb / sh))
               * (qz q * (sa / sh) + qz r * (sb / sh))
             + (qw q * (sa / sh) + qw r * (sb / sh))
               * (qw q * (sa / sh) + qw r * (sb / sh)))
      with ((sa * sa
             * (qx q * qx q + qy q * qy q + qz q * qz q + qw q * qw q)
             + 2 * sa * sb
               * (qx q * qx r + qy q * qy r + qz q * qz r + qw q * qw r)
             + sb * sb
               * (qx r * qx r + qy r * qy r + qz r * qz r + qw r * qw r))
            / (sh * sh)) by (field; lra).
    rewrite Hq, Hr, Hcdef, !Rmult_1_r, Hnum1. field. lra.
  - replace ((qx q * (sa / sh) + qx r * (sb / sh)) * qx r
             + (qy q * (sa / sh) + qy r * (sb / sh)) * qy r
             + (qz q * (sa / sh) + qz r * (sb / sh)) * qz r
             + (qw q * (sa / sh) + qw r * (sb / sh)) * qw r)
      with ((sa * (qx q * qx r + qy q * qy r + qz q * qz r + qw q * qw r)
             + sb * (qx r * qx r + qy r * qy r + qz r * qz r + qw r * qw r))
            / sh) by (field; lra).
    rewrite Hr, Hcdef, Rmult_1_r, Hnum2.
    replace (ca * sh / sh) with ca by (field; lra).
    pose proof (@cos_blend_step h ltac:(lra)) as Hstep.
    fold a in Hstep. fold ca in Hstep. rewrite Hcos in Hstep. exact Hstep.
Qed.

Lemma slerp_step (q r : Quaternion R) :
  quaternionLengthSq q = 1 -> quaternionLengthSq r = 1 ->
  0 <= quaternionDot q r ->
  quaternionLengthSq (Quaternion_slerp q r (num 0.15)) = 1 /\
  1 - quaternionDot (Quaternion_slerp q r (num 0.15)) r
  <= 7 / 8 * (1 - quaternionDot q r).
Proof.
  intros Hq Hr Hc. pose proof (unit_dot_le_1 Hq Hr) as Hle.
  destruct (Rle_dec 1 (quaternionDot q r)) as [Hone | Hlt].
  - rewrite (slerp_held Hone). split; [exact Hq | lra].
  - destruct (Rle_dec (1 - quaternionDot q r * quaternionDot q r)
                      Number_EPSILON) as [Hsmall | Hbig].
    + rewrite slerp_linear by (try split; lra).
      apply slerp_step_linear; try assumption. lra.
    + rewrite slerp_arc by (try split; lra).
      apply slerp_step_arc; try assumption. lra.
Qed.

Lemma quaternionNegate_unit (r : Quaternion R) :
  quaternionLengthSq (quaternionNegate r) = quaternionLengthSq r.
Proof.
  rewrite !quaternionLengthSq_R. unfold quaternionNegate.
  cbn [qx qy qz qw]. js. ring.
Qed.

Lemma quaternionDot_negate (q r : Quaternion R) :
  quaternionDot q (quaternionNegate r) = - quaternionDot q r.
Proof.
  rewrite !quaternionDot_R. unfold quaternionNegate.
  cbn [qx qy qz qw]. js. ring.
Qed.

(** [goal] is the target, met from its own hemisphere, or its negation,
    met from strictly inside the other one. *)
Lemma slerp_step_nearest (q r goal : Quaternion R) :
  quaternionLengthSq q = 1 -> quaternionLengthSq r = 1 ->
  (goal = r /\ 0 <= quaternionDot q goal) \/
  (goal = quaternionNegate r /\ 0 < quaternionDot q goal) ->
  quaternionLengthSq (Quaternion_slerp q r (num 0.15)) = 1 /\
  1 - quaternionDot (Quaternion_slerp q r (num 0.15)) goal
  <= 7 / 8 * (1 - quaternionDot q goal).
Proof.
  intros Hq Hr [[-> Hc] | [-> Hc]].
  - apply slerp_step; assumption.
  - rewrite quaternionDot_negate in Hc.
    rewrite slerp_other by lra.
    apply slerp_step; [exact Hq | | rewrite quaternionDot_negate; lra].
    rewrite quaternionNegate_unit. exact Hr.
Qed.

(** ** Many frames *)

Lemma displayFrames_orientation
    (positionRef scaleRef : Vector3 R) (rotationRef goal : Quaternion R)
    (Hr : quaternionLengthSq rotationRef = 1)
    (n : nat) :
  forall (g : Group R) (d : R),
    quaternionLengthSq (quaternion g) = 1 ->
    (goal = rotationRef /\ 0 <= quaternionDot (quaternion g) goal) \/
    (goal = quaternionNegate rotationRef /\
     0 < quaternionDot (quaternion g) goal) ->
    1 - quaternionDot (quaternion g) goal <= d ->
    exists gn,
      displayFrames Quaternion_slerp n (Some g) positionRef scaleRef rotationRef
        = Some gn /\
      quaternionLengthSq (quaternion gn) = 1 /\
      1 - quaternionDot (quaternion gn) goal <= (7 / 8) ^ n * d.
Proof.
  induction n as [| n IH]; intros g d Hq Hside Hd.
  - exists g. cbn [displayFrames pow]. repeat split; [exact Hq | lra].
  - cbn [displayFrames useFrame].
    destruct (slerp_step_nearest Hq Hr Hside) as [Hq' Hstep].
    assert (Hgoal : quaternionLengthSq goal = 1).
    { destruct Hside as [[-> _] | [-> _]];
        [exact Hr | rewrite quaternionNegate_unit; exact Hr]. }
    pose proof (unit_dot_le_1 Hq Hgoal) as Hle.
    destruct (IH (mkGroup (lerp (position g) positionRef (num 0.2))
                          (lerp (scale g) scaleRef (num 0.1))
                          (Quaternion_slerp (quaternion g) rotationRef
                                            (num 0.15)))
                 (7 / 8 * d)) as (gn & Hgn & Hqn & Hdn).
    + exact Hq'.
    + cbn [quaternion].
      destruct Hside as [[Hg Hc] | [Hg Hc]]; [left | right];
        (split; [exact Hg | lra]).
    + cbn [quaternion]. lra.
    + exists gn. split; [exact Hgn | split; [exact Hqn |]].
      cbn [pow]. lra.
Qed.

Lemma nearestTo_side (q r : Quaternion R) :
  (nearestTo q r = r /\ 0 <= quaternionDot q (nearestTo q r)) \/
  (nearestTo q r = quaternionNegate r /\
   0 < quaternionDot q (nearestTo q r)).
Proof.
  unfold nearestTo.
  destruct (Rlt_dec (quaternionDot q r) 0) as [Hneg | Hpos].
  - rewrite lt_R_true by (js; exact Hneg). right.
    rewrite quaternionDot_negate. split; [reflexivity | lra].
  - rewrite lt_R_false by (js; lra). left. split; [reflexivity | lra].
Qed.

(** From unit quaternions the smoothed orientation reaches the nearer of
    the target and its negation. *)
Lemma displayFrames_orientation_converges
    (positionRef scaleRef : Vector3 R) (rotationRef : Quaternion R)
    (g : Group R) (eps : R) :
  0 < eps ->
  quaternionLengthSq (quaternion g) = 1 ->
  quaternionLengthSq rotationRef = 1 ->
  exists N, forall n, (N <= n)%nat ->
    exists gn,
      displayFrames Quaternion_slerp n (Some g) positionRef scaleRef rotationRef
        = Some gn /\
      quaternionLengthSq (quaternion gn) = 1 /\
      quaternionDistance (quaternion gn) (nearestTo (quaternion g) rotationRef)
        < eps.
Proof.
  intros Heps Hq Hr.
  set (goal := nearestTo (quaternion g) rotationRef).
  pose proof (nearestTo_side (quaternion g) rotationRef) as Hside.
  fold goal in Hside.
  assert (Hgoal : quaternionLengthSq goal = 1).
  { destruct Hside as [[-> _] | [-> _]];
      [exact Hr | rewrite quaternionNegate_unit; exact Hr]. }
  pose proof (unit_dot_le_1 Hq Hgoal) as Hle.
  destruct (@geometric_below (7 / 8) (1 - quaternionDot (quaternion g) goal)
              (eps * eps / 2)) as [N HN]; [lra | lra | nra |].
  exists N. intros n Hn.
  destruct (@displayFrames_orientation positionRef scaleRef rotationRef goal
              Hr n g (1 - quaternionDot (quaternion g) goal) Hq Hside)
    as (gn & Hgn & Hqn & Hdn); [lra |].
  exists gn. split; [exact Hgn | split; [exact Hqn |]].
  unfold quaternionDistance. js.
  rewrite (unit_distance Hqn Hgoal).
  specialize (HN n Hn).
  pose proof (unit_dot_le_1 Hqn Hgoal) as Hlen.
  rewrite <- (sqrt_square eps) by lra.
  apply sqrt_lt_1_alt. split; lra.
Qed.

(** ** The smoothed pose *)

Lemma arc_weights_exceed_one (c : R) :
  0 <= c < 1 ->
  let sh := R_sqrt.sqrt (1 - c * c) in
  let h := atan2R sh c in
  1 < Rtrigo_def.sin ((1 - 15 / 100) * h) / sh
      + Rtrigo_def.sin (15 / 100 * h) / sh.
Proof.
  intros Hc. cbv zeta. pose proof PI_RGT_0 as Hpi.
  set (sh := R_sqrt.sqrt (1 - c * c)).
  assert (Hpos : 0 < 1 - c * c) by nra.
  assert (Hsh : 0 < sh) by (apply sqrt_lt_R0; exact Hpos).
  assert (Hshsh : sh * sh = 1 - c * c) by (apply sqrt_sqrt; lra).
  destruct (@atan2R_unit sh c Hsh (proj1 Hc)) as (Hrange & Hsin & _);
    [lra |].
  set (h := atan2R sh c) in *.
  set (a := (1 - 15 / 100) * h). set (b := 15 / 100 * h).
  assert (Hab : h = a + b) by (unfold a, b; lra).
  assert (Hs : sh = Rtrigo_def.sin a * Rtrigo_def.cos b
                    + Rtrigo_def.cos a * Rtrigo_def.sin b)
    by (rewrite <- Hsin, Hab; apply sin_plus).
  assert (Hsa : 0 < Rtrigo_def.sin a) by (apply sin_gt_0; unfold a; lra).
  assert (Hsb : 0 < Rtrigo_def.sin b) by (apply sin_gt_0; unfold b; lra).
  assert (Hca : Rtrigo_def.cos a < 1)
    by (rewrite <- cos_0; apply cos_decreasing_1; unfold a; lra).
  assert (Hcb : Rtrigo_def.cos b < 1)
    by (rewrite <- cos_0; apply cos_decreasing_1; unfold b; lra).
  replace (Rtrigo_def.sin a / sh + Rtrigo_def.sin b / sh)
    with ((Rtrigo_def.sin a + Rtrigo_def.sin b) / sh) by (field; lra).
  apply Rmult_lt_reg_r with sh; [exact Hsh |].
  replace ((Rtrigo_def.sin a + Rtrigo_def.sin b) / sh * sh)
    with (Rtrigo_def.sin a + Rtrigo_def.sin b) by (field; lra).
  nra.
Qed.

Lemma collapsedRotation_R :
  collapsedRotation (T := R) = mkQuaternion 0 0 0 (R_sqrt.sqrt 2 / 2).
Proof. unfold collapsedRotation. apply collapsed_targetQuaternion. Qed.

Lemma slerp_unit_at_target (q : Quaternion R) :
  quaternionLengthSq q = 1 -> Quaternion_slerp q q (num 0.15) = q.
Proof.
  intro Hq. apply slerp_held.
  rewrite quaternionDot_R. rewrite quaternionLengthSq_R in Hq. lra.
Qed.

Lemma quaternionDistance_unit (q r : Quaternion R) :
  quaternionLengthSq q = 1 -> quaternionLengthSq r = 1 ->
  quaternionDistance q r = R_sqrt.sqrt (2 * (1 - quaternionDot q r)).
Proof.
  intros Hq Hr. unfold quaternionDistance. js.
  rewrite (unit_distance Hq Hr). reflexivity.
Qed.

(** C8, amended.  Against fixed targets every display frame multiplies
    the distance of the smoothed position to its target by [1 - 0.2] and
    that of the smoothed scale by [1 - 0.1], so neither ever grows, both
    fall below any positive [eps], and position and scale stay on targets
    they have reached.  For the orientation, with three.js' [slerp] at
    0.15: from a unit quaternion toward a unit target a frame keeps the
    quaternion unit and does not increase its distance to the nearer of
    the target and its negation (which turn alike); after enough frames
    position, scale and orientation are all within [eps] of the position
    target, the scale target and that nearer quaternion; and a group that
    sits on all three targets, the rotation target being unit, is left
    exactly as it is. *)
Theorem smoothed_pose_converges (g : Group R)
    (positionRef scaleRef : Vector3 R) (rotationRef : Quaternion R)
    (eps : R) (Heps : 0 < eps) :
  (exists g1,
      useFrame Quaternion_slerp (Some g) positionRef scaleRef rotationRef
        = Some g1 /\
      distanceTo (position g1) positionRef
        = (1 - 0.2) * distanceTo (position g) positionRef /\
      distanceTo (scale g1) scaleRef
        = (1 - 0.1) * distanceTo (scale g) scaleRef /\
      distanceTo (position g1) positionRef
        <= distanceTo (position g) positionRef /\
      distanceTo (scale g1) scaleRef <= distanceTo (scale g) scaleRef) /\
  (exists N, forall n, (N <= n)%nat ->
      exists gn,
        displayFrames Quaternion_slerp n (Some g) positionRef scaleRef
                      rotationRef = Some gn /\
        distanceTo (position gn) positionRef < eps /\
        distanceTo (scale gn) scaleRef < eps) /\
  (position g = positionRef -> scale g = scaleRef ->
   exists g1,
     useFrame Quaternion_slerp (Some g) positionRef scaleRef rotationRef
       = Some g1 /\
     position g1 = positionRef /\ scale g1 = scaleRef) /\
  (quaternionLengthSq (quaternion g) = 1 ->
   quaternionLengthSq rotationRef = 1 ->
   let goal := nearestTo (quaternion g) rotationRef in
   (exists g1,
       useFrame Quaternion_slerp (Some g) positionRef scaleRef rotationRef
         = Some g1 /\
       quaternionLengthSq (quaternion g1) = 1 /\
       quaternionDistance (quaternion g1) goal
         <= quaternionDistance (quaternion g) goal) /\
   (exists N, forall n, (N <= n)%nat ->
       exists gn,
         displayFrames Quaternion_slerp n (Some g) positionRef scaleRef
                       rotationRef = Some gn /\
         distanceTo (position gn) positionRef < eps /\
         distanceTo (scale gn) scaleRef < eps /\
         quaternionLengthSq (quaternion gn) = 1 /\
         quaternionDistance (quaternion gn) goal < eps)) /\
  (position g = positionRef -> scale g = scaleRef ->
   quaternion g = rotationRef -> quaternionLengthSq rotationRef = 1 ->
   useFrame Quaternion_slerp (Some g) positionRef scaleRef rotationRef
     = Some g).
Proof.
  destruct (smoother_converges Quaternion_slerp positionRef scaleRef
              rotationRef g Heps) as (Hframe & Hconv & Hfixed).
  split; [exact Hframe | split; [exact Hconv | split; [exact Hfixed |]]].
  split.
  - intros Hq Hr. cbv zeta.
    set (goal := nearestTo (quaternion g) rotationRef).
    pose proof (nearestTo_side (quaternion g) rotationRef) as Hside.
    fold goal in Hside.
    assert (Hgoal : quaternionLengthSq goal = 1).
    { destruct Hside as [[-> _] | [-> _]];
        [exact Hr | rewrite quaternionNegate_unit; exact Hr]. }
    split.
    + destruct (slerp_step_nearest Hq Hr Hside) as [Hq1 Hstep].
      eexists. split; [reflexivity |]. cbn [quaternion].
      split; [exact Hq1 |].
      rewrite (quaternionDistance_unit Hq1 Hgoal).
      rewrite (quaternionDistance_unit Hq Hgoal).
      pose proof (unit_dot_le_1 Hq Hgoal) as Hle.
      pose proof (unit_dot_le_1 Hq1 Hgoal) as Hle1.
      apply sqrt_le_1; lra.
    + destruct Hconv as [N1 HN1].
      destruct (@displayFrames_orientation_converges positionRef scaleRef
                  rotationRef g eps Heps Hq Hr) as [N2 HN2].
      exists (Nat.max N1 N2). intros n Hn.
      destruct (HN1 n) as (gn & Hgn & Hp & Hs); [lia |].
      destruct (HN2 n) as (gn' & Hgn' & Hqn & Hdn); [lia |].
      rewrite Hgn in Hgn'. injection Hgn' as <-.
      exists gn. repeat split; assumption.
  - intros Hp Hs Hq Hr. cbn [useFrame].
    rewrite Hp, Hs, Hq, !lerp_at_target, (slerp_unit_at_target Hr).
    destruct g as [gp gs gq]. cbn [position scale quaternion] in *.
    subst. reflexivity.
Qed.

(** C8, amended, at a fresh group turning toward a fifth of a turn about
    the vertical, with [eps] a thousandth; and at a group already on
    these targets. *)
Lemma smoothed_pose_converges_witness :
  0 < 1 / 1000 /\
  quaternionLengthSq (quaternion (freshGroup (T := R))) = 1 /\
  quaternionLengthSq (yawRotation (T := R)) = 1 /\
  (exists N, forall n, (N <= n)%nat ->
      exists gn,
        displayFrames Quaternion_slerp n (Some freshGroup)
                      somePosition someScale yawRotation = Some gn /\
        distanceTo (position gn) somePosition < 1 / 1000 /\
        distanceTo (scale gn) someScale < 1 / 1000 /\
        quaternionLengthSq (quaternion gn) = 1 /\
        quaternionDistance (quaternion gn)
          (nearestTo (quaternion freshGroup) yawRotation) < 1 / 1000) /\
  useFrame Quaternion_slerp (Some settledOnYaw)
           somePosition someScale yawRotation
    = Some (settledOnYaw (T := R)).
Proof.
  assert (Heps : 0 < 1 / 1000) by lra.
  assert (Hfresh : quaternionLengthSq (quaternion (freshGroup (T := R))) = 1)
    by (rewrite quaternionLengthSq_R; cbn [quaternion freshGroup qx qy qz qw];
        js; lra).
  assert (Hyaw : quaternionLengthSq (yawRotation (T := R)) = 1)
    by (rewrite quaternionLengthSq_R; cbn [yawRotation qx qy qz qw]; js; lra).
  split; [exact Heps | split; [exact Hfresh | split; [exact Hyaw | split]]].
  - exact (proj2 (proj1 (proj2 (proj2 (proj2
             (@smoothed_pose_converges freshGroup somePosition someScale
                yawRotation (1 / 1000) Heps)))) Hfresh Hyaw)).
  - exact (proj2 (proj2 (proj2 (proj2
             (@smoothed_pose_converges settledOnYaw somePosition someScale
                yawRotation (1 / 1000) Heps))))
             eq_refl eq_refl eq_refl Hyaw).
Defined.

Lemma backTurn_from_basis :
  setFromRotationMatrix
    (makeBasis (mkVector3 (z (backForward (T := R))) 0 (- x (backForward (T := R))))
               targetY backForward)
  = backTurn (T := R).
Proof.
  unfold setFromRotationMatrix, makeBasis, targetY, backForward, backTurn.
  cbn [n11 n12 n13 n21 n22 n23 n31 n32 n33 x y z]. js.
  rewrite lt_R_false by lra.
  rewrite (lt_R_false (a := 1)) by lra. cbn [andb].
  rewrite lt_R_true by lra.
  replace (10 / 10 + 1 - - (8432 / 10000) - - (8432 / 10000))
    with (192 / 100 * (192 / 100)) by lra.
  rewrite sqrt_square by lra.
  apply quaternion_eq; cbn [qx qy qz qw]; lra.
Qed.

(** C8 as stated fails on the orientation, in two ways.  The rotation
    target that a collapsed hand leaves, (0, 0, 0, sqrt 2 / 2), is not a
    unit quaternion, and a group that sits on its three targets with that
    rotation is moved by the next display frame.  And toward the unit
    target (0, 0.96, 0, -0.28), which the loop builds from the forward
    vector (-0.5376, 0, -0.8432), a fresh group heads for the negated
    quaternion: at every frame it is at least 1 away from the target. *)
Lemma smoothed_orientation_misses_target :
  (collapsedRotation (T := R)
     = handRotationRef
         (fst (detectionCycle (shownSince 0)
                 (Returns (oneHand (collapsedHand uprightWrist)))
                 (browserAt 10))) /\
   position (settledOnCollapsed (T := R)) = somePosition /\
   scale (settledOnCollapsed (T := R)) = someScale /\
   quaternion (settledOnCollapsed (T := R)) = collapsedRotation /\
   exists g1,
     useFrame Quaternion_slerp (Some settledOnCollapsed)
              somePosition someScale collapsedRotation = Some g1 /\
     quaternion g1 <> collapsedRotation /\
     g1 <> settledOnCollapsed (T := R)) /\
  (setFromRotationMatrix
     (makeBasis (mkVector3 (z (backForward (T := R))) 0
                           (- x (backForward (T := R))))
                targetY backForward)
     = backTurn (T := R) /\
   quaternionLengthSq (backTurn (T := R)) = 1 /\
   forall n : nat,
     exists gn,
       displayFrames Quaternion_slerp n (Some freshGroup)
                     somePosition someScale backTurn = Some gn /\
       1 <= quaternionDistance (quaternion gn) (backTurn (T := R))).
Proof.
  split.
  - destruct (collapsed_cycle (shownSince 0) (browserAt 10) uprightWrist)
      as (_ & _ & _ & Hq).
    cbv zeta in Hq.
    split; [rewrite Hq; apply collapsedRotation_R |].
    split; [reflexivity | split; [reflexivity | split; [reflexivity |]]].
    eexists. split; [reflexivity |].
    assert (Hmoved : Quaternion_slerp (collapsedRotation (T := R))
                       collapsedRotation (num 0.15)
                     <> collapsedRotation).
    { rewrite collapsedRotation_R. intro He.
      assert (Hroot : R_sqrt.sqrt 2 * R_sqrt.sqrt 2 = 2)
        by (apply sqrt_sqrt; lra).
      assert (Hw : 0 < R_sqrt.sqrt 2) by (apply sqrt_lt_R0; lra).
      assert (Hc : quaternionDot (mkQuaternion 0 0 0 (R_sqrt.sqrt 2 / 2))
                                 (mkQuaternion 0 0 0 (R_sqrt.sqrt 2 / 2))
                   = 1 / 2)
        by (rewrite quaternionDot_R; cbn [qx qy qz qw]; nra).
      pose proof epsilon_small as Heps.
      rewrite slerp_arc in He by (rewrite Hc; try split; lra).
      apply (f_equal (@qw R)) in He. cbn [qw] in He. rewrite Hc in He.
      pose proof (@arc_weights_exceed_one (1 / 2) ltac:(lra)) as Hsum.
      cbv zeta in Hsum. nra. }
    split.
    + cbn [quaternion settledOnCollapsed]. exact Hmoved.
    + intro He. apply (f_equal (@quaternion R)) in He.
      cbn [quaternion settledOnCollapsed] in He. exact (Hmoved He).
  - assert (Hback : quaternionLengthSq (backTurn (T := R)) = 1)
      by (rewrite quaternionLengthSq_R; cbn [backTurn qx qy qz qw]; js; lra).
    assert (Hfresh : quaternionLengthSq (quaternion (freshGroup (T := R))) = 1)
      by (rewrite quaternionLengthSq_R;
          cbn [quaternion freshGroup qx qy qz qw]; js; lra).
    split; [exact backTurn_from_basis | split; [exact Hback |]].
    intro n.
    assert (Hdot : quaternionDot (quaternion (freshGroup (T := R)))
                                 (quaternionNegate backTurn) = 28 / 100).
    { rewrite quaternionDot_R. unfold quaternionNegate.
      cbn [quaternion freshGroup backTurn qx qy qz qw]. js. lra. }
    destruct (@displayFrames_orientation somePosition someScale backTurn
                (quaternionNegate backTurn) Hback n freshGroup
                (1 - 28 / 100) Hfresh)
      as (gn & Hgn & Hqn & Hdn).
    { right. split; [reflexivity | rewrite Hdot; lra]. }
    { rewrite Hdot. lra. }
    exists gn. split; [exact Hgn |].
    rewrite (quaternionDistance_unit Hqn Hback).
    rewrite quaternionDot_negate in Hdn.
    assert (Hpow : (7 / 8) ^ n <= 1).
    { rewrite <- (pow1 n). apply pow_incr. lra. }
    assert (Hpow0 : 0 <= (7 / 8) ^ n) by (apply pow_le; lra).
    apply Rle_trans with (R_sqrt.sqrt 1); [rewrite sqrt_1; lra |].
    apply sqrt_le_1; [lra | nra | nra].
Qed.
